(** * FNF spritesheet converter: a shallow embedding of [main.py]

    The script reads a packed sprite atlas and its XML index, repacks every
    sprite into a uniform grid cell of a square power-of-two atlas, and
    rewrites the index.  This file embeds the computational core
    ([Sprite], [next_power_of_two], [next_multiple], [parse_sprites],
    [create_new_spritesheet], [update_xml_with_new_sprites]) and proves
    properties of it.

    Conventions of the embedding:
    - Python [int] is [Z]; [%] is [Z.modulo] (sign of the divisor), [**] is
      [Z.pow].
    - Python exceptions are the [Raise] branch of the [result] monad.
    - Python [float] is IEEE binary64, given by [spec_float] at precision 53
      and maximal exponent 1024.
    - An XML element is a tag with an attribute dictionary
      ([gmap string string]); the root is the list of its children.
    - Pillow images are symbolic terms recording the calls made on them;
      pixels, and the errors Pillow itself may raise, are not modelled.
    - Files, directories and the command line are left out. *)

From Stdlib Require Import ZArith Lia Ascii String.
From Stdlib Require Import DecimalString DecimalZ DecimalPos.
From Stdlib Require Import Floats.SpecFloat.
From stdpp Require Import base option list gmap strings.

Local Open Scope Z_scope.

(** ** Python primitives *)

Module Py.

(** The exceptions the modelled code can raise. *)
Inductive exn : Set :=
| TypeError
| ValueError
| OverflowError
| IndexError
| ZeroDivisionError.

Inductive result (A : Type) : Type :=
| Ok (a : A)
| Raise (e : exn).
Global Arguments Ok {A} a.
Global Arguments Raise {A} e.

Definition bind {A B : Type} (c : result A) (k : A -> result B) : result B :=
  match c with
  | Ok a => k a
  | Raise e => Raise e
  end.

(** [bool(s)] for a [str]: true exactly for the non-empty strings. *)
Definition bool_of_str (s : string) : bool :=
  match s with
  | EmptyString => false
  | String _ _ => true
  end.

(** [str(n)] for an [int]: the decimal numeral, with a leading minus sign
    for negative numbers. *)
Definition str (n : Z) : string := NilZero.string_of_int (Z.to_int n).

(** Characters [int()] skips around the numeral of an ASCII string: tab,
    line feed, vertical tab, form feed, carriage return and space. *)
Definition is_space (c : ascii) : bool :=
  let n := N_of_ascii c in
  (((9 <=? n) && (n <=? 13)) || (n =? 32))%N.

Definition digit_of (c : ascii) : option Z :=
  let n := N_of_ascii c in
  if ((48 <=? n) && (n <=? 57))%N then Some (Z.of_N n - 48) else None.

Fixpoint lstrip (s : list ascii) : list ascii :=
  match s with
  | [] => []
  | c :: r => if is_space c then lstrip r else s
  end.

Definition strip (s : list ascii) : list ascii :=
  rev (lstrip (rev (lstrip s))).

(** Decimal digits, where single underscores may separate two digits.
    [prev] tells whether the previous character was a digit. *)
Fixpoint digits (acc : Z) (prev : bool) (s : list ascii) : option Z :=
  match s with
  | [] => if prev then Some acc else None
  | c :: r =>
      if Ascii.eqb c "_"%char then
        if prev then digits acc false r else None
      else
        match digit_of c with
        | Some d => digits (10 * acc + d) true r
        | None => None
        end
  end.

(** [int(s)] for a [str] in base ten: surrounding white space, an optional
    sign, then digits.  The interpreter's optional cap on the number of
    digits is a run-time setting and is not part of the model; non-ASCII
    digits and spaces are not recognised. *)
Definition int_of_str (s : string) : result Z :=
  let body := strip (list_ascii_of_string s) in
  let signed (neg : bool) (r : list ascii) :=
    match digits 0 false r with
    | Some n => Ok (if neg then - n else n)
    | None => Raise ValueError
    end in
  match body with
  | c :: r =>
      if Ascii.eqb c "-"%char then signed true r
      else if Ascii.eqb c "+"%char then signed false r
      else signed false body
  | [] => Raise ValueError
  end.

(** [int(v)] where [v] is the result of [dict.get(key)]: [None] when the
    key is missing, which [int] rejects with a [TypeError]. *)
Definition int_of_get (v : option string) : result Z :=
  match v with
  | Some s => int_of_str s
  | None => Raise TypeError
  end.

(** [int(d.get(key, 0))]: the default is the integer [0]. *)
Definition int_of_get_default0 (v : option string) : result Z :=
  match v with
  | Some s => int_of_str s
  | None => Ok 0
  end.

(** [bool(d.get(key, False))]. *)
Definition bool_of_get_defaultFalse (v : option string) : bool :=
  match v with
  | Some s => bool_of_str s
  | None => false
  end.

(** [n.bit_length()]: the number of bits of the absolute value. *)
Definition bit_length (n : Z) : Z :=
  match n with
  | Z0 => 0
  | Zpos p | Zneg p => Zpos (Pos.size p)
  end.

(** *** Floats: [math.sqrt] and [math.ceil] *)

Definition prec : Z := 53.
Definition emax : Z := 1024.

(** Conversion of an [int] argument to [float]: rounded to nearest, ties
    to even; [OverflowError] when the result is not finite. *)
Definition float_of_int (n : Z) : result spec_float :=
  match binary_normalize prec emax n 0 false with
  | S754_infinity _ => Raise OverflowError
  | f => Ok f
  end.

(** [math.sqrt(n)] on an [int]: the argument is converted first; a
    negative argument is a domain error. *)
Definition math_sqrt (n : Z) : result spec_float :=
  bind (float_of_int n) (fun f =>
    match f with
    | S754_finite true _ _ => Raise ValueError
    | _ => Ok (SFsqrt prec emax f)
    end).

(** [math.ceil(f)]: the least integer not below [f]. *)
Definition math_ceil (f : spec_float) : result Z :=
  match f with
  | S754_zero _ => Ok 0
  | S754_infinity _ => Raise OverflowError
  | S754_nan => Raise ValueError
  | S754_finite s m e =>
      let v := if s then Zneg m else Zpos m in
      Ok (if 0 <=? e then v * 2 ^ e else - ((- v) / 2 ^ (- e)))
  end.

End Py.

Import Py.

Notation "'let*' x ':=' c 'in' k" := (Py.bind c (fun x => k))
  (at level 10, x name, c at level 100, k at level 200).
Notation "'let*' ' p ':=' c 'in' k" :=
  (Py.bind c (fun x => match x with p => k end))
  (at level 10, p pattern, c at level 100, k at level 200).

(** ** The [Sprite] dataclass *)

Module Sprite.

Record t : Type := Build {
  name : option string;
  x : Z;
  y : Z;
  width : Z;
  height : Z;
  pos_x : Z;
  pos_y : Z;
  rotated : bool
}.

(** [__post_init__]: a rotated sprite has its sizes and its offsets
    exchanged. *)
Definition post_init (self : t) : t :=
  if rotated self then
    {| name := name self; x := x self; y := y self;
       width := height self; height := width self;
       pos_x := pos_y self; pos_y := pos_x self;
       rotated := rotated self |}
  else self.

(** The constructor call [Sprite(name=..., x=..., ...)]: the generated
    [__init__] stores the eight arguments and then runs [post_init]. *)
Definition init (name : option string) (x y width height pos_x pos_y : Z)
    (rotated : bool) : t :=
  post_init (Build name x y width height pos_x pos_y rotated).

(** [__eq__] *)
Definition eq (self other : t) : bool :=
  (x self =? x other) && (y self =? y other) &&
  (width self =? width other) && (height self =? height other) &&
  (pos_x self =? pos_x other) && (pos_y self =? pos_y other).

End Sprite.

(** ** Size rounding *)

Definition SPRITE_SIZE_MULTIPLE : Z := 4.

Definition next_power_of_two (number : Z) : Z :=
  if number =? 0 then 1 else 2 ^ bit_length (number - 1).

Definition next_multiple (number multiple_requested : Z) : result Z :=
  if multiple_requested =? 0 then Raise ZeroDivisionError
  else if negb (number mod multiple_requested =? 0) then
    Ok (number + (multiple_requested - number mod multiple_requested))
  else Ok number.

(** ** The XML index *)

Record Element : Type := mkElement {
  tag : string;
  attrib : gmap string string
}.

(** [xml_root.findall(t)]: the children with tag [t], in document order. *)
Definition findall (xml_root : list Element) (t : string) : list Element :=
  List.filter (fun e => String.eqb (tag e) t) xml_root.

(** The [Sprite(...)] expression both [parse_sprites] and
    [update_xml_with_new_sprites] evaluate on a [SubTexture]; the keyword
    arguments are evaluated in the order written. *)
Definition sprite_of_sub_texture (sub_texture : Element) : result Sprite.t :=
  let a := attrib sub_texture in
  let name := a !! "name"%string in
  let* x := int_of_get (a !! "x"%string) in
  let* y := int_of_get (a !! "y"%string) in
  let* width := int_of_get (a !! "width"%string) in
  let* height := int_of_get (a !! "height"%string) in
  let* pos_x := int_of_get_default0 (a !! "frameX"%string) in
  let* pos_y := int_of_get_default0 (a !! "frameY"%string) in
  let rotated := bool_of_get_defaultFalse (a !! "rotated"%string) in
  Ok (Sprite.init name x y width height pos_x pos_y rotated).

(** [sprite in sprite_list] *)
Definition contains (sprite_list : list Sprite.t) (sprite : Sprite.t) : bool :=
  existsb (fun e => Sprite.eq sprite e) sprite_list.

(** ** [parse_sprites] *)

(** The body of the [for] loop, threaded through the three locals. *)
Fixpoint parse_loop (sub_textures : list Element)
    (sprite_list : list Sprite.t) (max_width max_height : Z)
    : result (list Sprite.t * Z * Z) :=
  match sub_textures with
  | [] => Ok (sprite_list, max_width, max_height)
  | sub_texture :: rest =>
      let* sprite := sprite_of_sub_texture sub_texture in
      let max_width :=
        Z.max max_width (Sprite.width sprite - Sprite.pos_x sprite) in
      let max_height :=
        Z.max max_height (Sprite.height sprite - Sprite.pos_y sprite) in
      let sprite_list :=
        if negb (contains sprite_list sprite) then sprite_list ++ [sprite]
        else sprite_list in
      parse_loop rest sprite_list max_width max_height
  end.

Definition parse_sprites (xml_root : list Element)
    : result (list Sprite.t * Z * Z) :=
  let* '(sprite_list, max_width, max_height) :=
    parse_loop (findall xml_root "SubTexture") [] 0 0 in
  let* max_width := next_multiple max_width SPRITE_SIZE_MULTIPLE in
  let* max_height := next_multiple max_height SPRITE_SIZE_MULTIPLE in
  Ok (sprite_list, max_width, max_height).

(** ** Images *)

Module Image.

Inductive method : Set := ROTATE_90.

(** An image is the history of the Pillow calls that built it. *)
Inductive t : Type :=
| opened (size : Z * Z)
| new (mode : string) (size : Z * Z)
| crop (im : t) (box : Z * Z * Z * Z)
| transpose (im : t) (m : method)
| paste (im : t) (src : t) (box : Z * Z).

Fixpoint size (im : t) : Z * Z :=
  match im with
  | opened sz => sz
  | new _ sz => sz
  | crop _ (x0, y0, x1, y1) => (x1 - x0, y1 - y0)
  | transpose im ROTATE_90 => (snd (size im), fst (size im))
  | paste im _ _ => size im
  end.

(** The buffer an image was pasted onto, and the pastes in order. *)
Fixpoint canvas (im : t) : t :=
  match im with
  | paste im _ _ => canvas im
  | _ => im
  end.

Fixpoint pastes (im : t) : list (t * (Z * Z)) :=
  match im with
  | paste im src box => pastes im ++ [(src, box)]
  | _ => []
  end.

End Image.

(** ** [create_new_spritesheet] *)

(** [sum(max_width * max_height for _ in sprite_list)] *)
Definition total_area (sprite_list : list Sprite.t) (max_width max_height : Z)
    : Z :=
  fold_left (fun acc _ => acc + max_width * max_height) sprite_list 0.

(** [next_power_of_two(math.ceil(math.sqrt(total_area)))] *)
Definition new_dimensions (sprite_list : list Sprite.t)
    (max_width max_height : Z) : result Z :=
  let* root := math_sqrt (total_area sprite_list max_width max_height) in
  let* side := math_ceil root in
  Ok (next_power_of_two side).

(** The piece of the source image copied for [sprite]. *)
Definition sprite_image (spritesheet_image : Image.t) (sprite : Sprite.t)
    : Image.t :=
  if Sprite.rotated sprite then
    Image.transpose
      (Image.crop spritesheet_image
         (Sprite.x sprite, Sprite.y sprite,
          Sprite.x sprite + Sprite.height sprite,
          Sprite.y sprite + Sprite.width sprite))
      Image.ROTATE_90
  else
    Image.crop spritesheet_image
      (Sprite.x sprite, Sprite.y sprite,
       Sprite.x sprite + Sprite.width sprite,
       Sprite.y sprite + Sprite.height sprite).

(** The body of the placement loop, threaded through [current_x],
    [current_y], the destination image and the output list. *)
Fixpoint repack_loop (sprite_list : list Sprite.t) (max_width max_height : Z)
    (spritesheet_image : Image.t) (current_x current_y : Z)
    (new_spritesheet_image : Image.t) (new_sprite_list : list Sprite.t)
    : Image.t * list Sprite.t :=
  match sprite_list with
  | [] => (new_spritesheet_image, new_sprite_list)
  | sprite :: rest =>
      let image := sprite_image spritesheet_image sprite in
      let '(current_x, current_y) :=
        if current_x + max_width >? fst (Image.size new_spritesheet_image)
        then (0, current_y + max_height)
        else (current_x, current_y) in
      let new_sprite :=
        Sprite.init (Sprite.name sprite) current_x current_y
          max_width max_height 0 0 false in
      let new_sprite_list := new_sprite_list ++ [new_sprite] in
      let new_spritesheet_image :=
        Image.paste new_spritesheet_image image
          (current_x - Sprite.pos_x sprite, current_y - Sprite.pos_y sprite) in
      repack_loop rest max_width max_height spritesheet_image
        (current_x + max_width) current_y
        new_spritesheet_image new_sprite_list
  end.

(** The Pillow calls are recorded, not executed.  Where Pillow refuses one
    (a crop box whose right or lower edge is before its left or upper edge,
    a coordinate outside a C int, a buffer too large to allocate) the code
    raises and returns nothing; [Ok] below therefore reads: if the call
    returns, this is what it returns. *)
Definition create_new_spritesheet (sprite_list : list Sprite.t)
    (max_width max_height : Z) (spritesheet_image : Image.t)
    : result (Image.t * list Sprite.t) :=
  let* new_dimensions := new_dimensions sprite_list max_width max_height in
  let new_spritesheet_image :=
    Image.new "RGBA" (new_dimensions, new_dimensions) in
  Ok (repack_loop sprite_list max_width max_height spritesheet_image
        0 0 new_spritesheet_image []).

(** ** [update_xml_with_new_sprites] *)

(** [l.index(v)]: the position of the first element equal to [v]. *)
Fixpoint index (l : list Sprite.t) (v : Sprite.t) : result nat :=
  match l with
  | [] => Raise ValueError
  | e :: r =>
      if Sprite.eq e v then Ok O
      else let* i := index r v in Ok (S i)
  end.

(** [l[i]] for a non-negative [i]. *)
Definition getitem (l : list Sprite.t) (i : nat) : result Sprite.t :=
  match l !! i with
  | Some v => Ok v
  | None => Raise IndexError
  end.

Definition obsolete_attributes : list string :=
  ["frameX"; "frameY"; "frameWidth"; "frameHeight"; "rotated"]%string.

(** [if attr in attrib: del attrib[attr]] *)
Definition del_if_present (a : gmap string string) (attr : string)
    : gmap string string :=
  if bool_decide (is_Some (a !! attr)) then delete attr a else a.

(** The loop body on one [SubTexture]; the element is updated in place, so
    the result is the element's new state. *)
Definition update_sub_texture (sub_texture : Element)
    (original_sprite_list new_sprite_list : list Sprite.t) : result Element :=
  let* original_sprite := sprite_of_sub_texture sub_texture in
  let* index := index original_sprite_list original_sprite in
  let* new_sprite := getitem new_sprite_list index in
  let a := attrib sub_texture in
  let a := <["x"%string := str (Sprite.x new_sprite)]> a in
  let a := <["y"%string := str (Sprite.y new_sprite)]> a in
  let a := <["width"%string := str (Sprite.width new_sprite)]> a in
  let a := <["height"%string := str (Sprite.height new_sprite)]> a in
  let a := fold_left del_if_present obsolete_attributes a in
  Ok {| tag := tag sub_texture; attrib := a |}.

(** The loop visits the [SubTexture] children in document order; the other
    children are not touched. *)
Fixpoint update_xml_with_new_sprites (xml_root : list Element)
    (original_sprite_list new_sprite_list : list Sprite.t)
    : result (list Element) :=
  match xml_root with
  | [] => Ok []
  | e :: rest =>
      let* e' :=
        if String.eqb (tag e) "SubTexture" then
          update_sub_texture e original_sprite_list new_sprite_list
        else Ok e in
      let* rest' :=
        update_xml_with_new_sprites rest original_sprite_list new_sprite_list in
      Ok (e' :: rest')
  end.

(** ** [generate_new_spritesheet], without the file system *)

Definition generate_new_spritesheet (spritesheet_image : Image.t)
    (xml_root : list Element) : result (Image.t * list Element) :=
  let* '(sprite_list, max_width, max_height) := parse_sprites xml_root in
  let* '(new_spritesheet_image, new_sprite_list) :=
    create_new_spritesheet sprite_list max_width max_height
      spritesheet_image in
  let* xml_root :=
    update_xml_with_new_sprites xml_root sprite_list new_sprite_list in
  Ok (new_spritesheet_image, xml_root).

(** ** The placement grid, as the specification words it

    The cursor starts at the given position; before a sprite is placed the
    cursor wraps to the start of the next row when the cell would cross the
    right edge; after the placement it advances by one cell width. *)

Fixpoint spec_grid (side cell_w cell_h cursor_x cursor_y : Z) (n : nat)
    : list (Z * Z) :=
  match n with
  | O => []
  | S n' =>
      let place :=
        if cursor_x + cell_w >? side then (0, cursor_y + cell_h)
        else (cursor_x, cursor_y) in
      place :: spec_grid side cell_w cell_h (fst place + cell_w) (snd place) n'
  end.

(** The record the specification asks for at grid position [p]. *)
Definition spec_record (cell_w cell_h : Z) (sprite : Sprite.t) (p : Z * Z)
    : Sprite.t :=
  Sprite.Build (Sprite.name sprite) (fst p) (snd p) cell_w cell_h 0 0 false.

(** The paste the specification asks for at grid position [p]. *)
Definition spec_paste (spritesheet_image : Image.t) (sprite : Sprite.t)
    (p : Z * Z) : Image.t * (Z * Z) :=
  (sprite_image spritesheet_image sprite,
   (fst p - Sprite.pos_x sprite, snd p - Sprite.pos_y sprite)).

Definition paste_all (im : Image.t) (l : list (Image.t * (Z * Z))) : Image.t :=
  fold_left (fun im sb => Image.paste im (fst sb) (snd sb)) l im.

(** ** The catalog and the maxima, as the specification words them *)

(** All records of a descriptor sequence, constructed in document order. *)
Fixpoint sprites_of (sub_textures : list Element) : result (list Sprite.t) :=
  match sub_textures with
  | [] => Ok []
  | sub_texture :: rest =>
      let* sprite := sprite_of_sub_texture sub_texture in
      let* sprites := sprites_of rest in
      Ok (sprite :: sprites)
  end.

(** First-seen order is kept and a record equal to an earlier one is
    dropped. *)
Definition spec_catalog_add (catalog : list Sprite.t) (sprite : Sprite.t)
    : list Sprite.t :=
  if contains catalog sprite then catalog else catalog ++ [sprite].

Definition spec_catalog (sprites : list Sprite.t) : list Sprite.t :=
  fold_left spec_catalog_add sprites [].

(** The records of a list that are not equal to a record before them
    ([seen] holds the records before the list), in order. *)
Fixpoint first_appearances (seen l : list Sprite.t) : list Sprite.t :=
  match l with
  | [] => []
  | s :: rest =>
      (if contains seen s then [] else [s]) ++
      first_appearances (seen ++ [s]) rest
  end.

Definition trim_width (sprite : Sprite.t) : Z :=
  Sprite.width sprite - Sprite.pos_x sprite.

Definition trim_height (sprite : Sprite.t) : Z :=
  Sprite.height sprite - Sprite.pos_y sprite.

(** The largest element of a list; there is none for the empty list. *)
Definition spec_maximum (l : list Z) : option Z :=
  match l with
  | [] => None
  | a :: r => Some (fold_left Z.max r a)
  end.

(** The largest element of a list, but at least [floor]. *)
Definition maximum_from (floor : Z) (l : list Z) : Z :=
  fold_right Z.max floor l.

(** [next_multiple n 4] in closed form. *)
Definition round4 (n : Z) : Z :=
  if n mod 4 =? 0 then n else n + (4 - n mod 4).

(** ** The atlas side, as the specification words it *)

(** The least integer whose square is at least [a]: the ceiling of the real
    square root. *)
Definition ceil_sqrt (a : Z) : Z :=
  let s := Z.sqrt a in if s * s =? a then s else s + 1.

Definition spec_side (n : nat) (cell_w cell_h : Z) : Z :=
  next_power_of_two (ceil_sqrt (Z.of_nat n * cell_w * cell_h)).

(** ** Decimal numerals *)

(** The value of a digit sequence read from the left, starting from
    [acc]. *)
Fixpoint uint_value (d : Decimal.uint) (acc : Z) : Z :=
  match d with
  | Decimal.Nil => acc
  | Decimal.D0 l => uint_value l (10 * acc + 0)
  | Decimal.D1 l => uint_value l (10 * acc + 1)
  | Decimal.D2 l => uint_value l (10 * acc + 2)
  | Decimal.D3 l => uint_value l (10 * acc + 3)
  | Decimal.D4 l => uint_value l (10 * acc + 4)
  | Decimal.D5 l => uint_value l (10 * acc + 5)
  | Decimal.D6 l => uint_value l (10 * acc + 6)
  | Decimal.D7 l => uint_value l (10 * acc + 7)
  | Decimal.D8 l => uint_value l (10 * acc + 8)
  | Decimal.D9 l => uint_value l (10 * acc + 9)
  end.

(** The characters of a digit sequence. *)
Definition numeral (d : Decimal.uint) : list ascii :=
  list_ascii_of_string (NilEmpty.string_of_uint d).

(** ** The rewritten index *)

(** The attributes of a [SubTexture] after the rewrite with
    [new_sprite]. *)
Definition rewritten_attrib (a : gmap string string) (new_sprite : Sprite.t)
    : gmap string string :=
  fold_left del_if_present obsolete_attributes
    (<["height"%string := str (Sprite.height new_sprite)]>
       (<["width"%string := str (Sprite.width new_sprite)]>
          (<["y"%string := str (Sprite.y new_sprite)]>
             (<["x"%string := str (Sprite.x new_sprite)]> a)))).

(** What the rewriter leaves on one element. *)
Definition rewritten (original new_sprite_list : list Sprite.t)
    (e e' : Element) : Prop :=
  tag e' = tag e /\
  (tag e <> "SubTexture"%string -> e' = e) /\
  (tag e = "SubTexture"%string ->
   exists s i c ns,
     sprite_of_sub_texture e = Ok s /\
     original !! i = Some c /\ Sprite.eq c s = true /\
     (forall j c', (j < i)%nat -> original !! j = Some c' ->
                   Sprite.eq c' s = false) /\
     new_sprite_list !! i = Some ns /\
     attrib e' !! "x"%string = Some (str (Sprite.x ns)) /\
     attrib e' !! "y"%string = Some (str (Sprite.y ns)) /\
     attrib e' !! "width"%string = Some (str (Sprite.width ns)) /\
     attrib e' !! "height"%string = Some (str (Sprite.height ns)) /\
     attrib e' !! "frameX"%string = None /\
     attrib e' !! "frameY"%string = None /\
     attrib e' !! "frameWidth"%string = None /\
     attrib e' !! "frameHeight"%string = None /\
     attrib e' !! "rotated"%string = None /\
     (forall k, ~ In k (["x"; "y"; "width"; "height"]%string
                          ++ obsolete_attributes) ->
                attrib e' !! k = attrib e !! k)).

(** ** Concrete inputs *)

Definition sub_texture (l : list (string * string)) : Element :=
  {| tag := "SubTexture"; attrib := list_to_map l |}.

Definition demo_root : list Element :=
  [ sub_texture [("name", "a"); ("x", "0"); ("y", "0"); ("width", "10");
                 ("height", "20")];
    sub_texture [("name", "b"); ("x", "10"); ("y", "0"); ("width", "4");
                 ("height", "4"); ("rotated", "true")];
    sub_texture [("name", "c"); ("x", "14"); ("y", "0"); ("width", "16");
                 ("height", "8"); ("frameX", "0"); ("frameY", "0")] ]%string.

Definition demo_catalog : list Sprite.t :=
  [Sprite.Build (Some "a"%string) 0 0 10 20 0 0 false;
   Sprite.Build (Some "b"%string) 10 0 4 4 0 0 true;
   Sprite.Build (Some "c"%string) 14 0 16 8 0 0 false].

Definition demo_new_sprite_list : list Sprite.t :=
  [Sprite.Build (Some "a"%string) 0 0 16 20 0 0 false;
   Sprite.Build (Some "b"%string) 16 0 16 20 0 0 false;
   Sprite.Build (Some "c"%string) 0 20 16 20 0 0 false].

Definition demo_root' : list Element :=
  [ sub_texture [("name", "a"); ("x", "0"); ("y", "0"); ("width", "16");
                 ("height", "20")];
    sub_texture [("name", "b"); ("x", "16"); ("y", "0"); ("width", "16");
                 ("height", "20")];
    sub_texture [("name", "c"); ("x", "0"); ("y", "20"); ("width", "16");
                 ("height", "20")] ]%string.

Definition any_sprite : Sprite.t :=
  Sprite.init (Some "s"%string) 0 0 4 4 0 0 false.

Definition rotated_false_element : Element :=
  sub_texture [("name", "r"); ("x", "1"); ("y", "2"); ("width", "3");
               ("height", "5"); ("frameX", "-1"); ("frameY", "-2");
               ("rotated", "false")]%string.

Definition negative_trim_root : list Element :=
  [ sub_texture [("name", "t"); ("x", "0"); ("y", "0"); ("width", "4");
                 ("height", "4"); ("frameX", "10"); ("frameY", "10")] ]%string.

Definition negative_trim_sprite : Sprite.t :=
  Sprite.Build (Some "t"%string) 0 0 4 4 10 10 false.

Definition rotated_pair_root : list Element :=
  [ sub_texture [("name", "up"); ("x", "0"); ("y", "0"); ("width", "10");
                 ("height", "20"); ("frameX", "1"); ("frameY", "2")];
    sub_texture [("name", "side"); ("x", "0"); ("y", "0"); ("width", "10");
                 ("height", "20"); ("frameX", "1"); ("frameY", "2");
                 ("rotated", "true")] ]%string.

Definition named_pair_root : list Element :=
  [ sub_texture [("name", "idle0"); ("x", "0"); ("y", "0"); ("width", "10");
                 ("height", "20"); ("frameX", "1"); ("frameY", "2")];
    sub_texture [("name", "idle1"); ("x", "0"); ("y", "0"); ("width", "10");
                 ("height", "20"); ("frameX", "1"); ("frameY", "2")] ]%string.

(** ** Notions used by the further properties *)

(** No two entries of a list are equal records. *)
Definition pairwise_distinct (l : list Sprite.t) : Prop :=
  forall i j a b,
    l !! i = Some a -> l !! j = Some b -> i <> j -> Sprite.eq a b = false.

(** The attributes [sprite_of_sub_texture] reads. *)
Definition descriptor_keys : list string :=
  ["name"; "x"; "y"; "width"; "height"; "frameX"; "frameY"; "rotated"]%string.



(** Two descriptors that differ in their names only, with a catalog and a
    repacked list for them. *)
Definition pair_first : Element :=
  sub_texture [("name", "idle0"); ("x", "0"); ("y", "0"); ("width", "10");
               ("height", "20"); ("frameX", "1"); ("frameY", "2")]%string.

Definition pair_second : Element :=
  sub_texture [("name", "idle1"); ("x", "0"); ("y", "0"); ("width", "10");
               ("height", "20"); ("frameX", "1"); ("frameY", "2")]%string.

Definition pair_catalog : list Sprite.t :=
  [Sprite.Build (Some "idle0"%string) 0 0 10 20 1 2 false].

Definition pair_new_sprite_list : list Sprite.t :=
  [Sprite.Build (Some "idle0"%string) 0 0 12 20 0 0 false].

(** A single sprite whose cell is wider than the atlas computed for it. *)
Definition wide_root : list Element :=
  [ sub_texture [("name", "bar"); ("x", "0"); ("y", "0"); ("width", "16");
                 ("height", "4")] ]%string.

Definition wide_catalog : list Sprite.t :=
  [Sprite.Build (Some "bar"%string) 0 0 16 4 0 0 false].

Definition wide_new_sprite_list : list Sprite.t :=
  [Sprite.Build (Some "bar"%string) 0 4 16 4 0 0 false].

(** A root whose only child is not a [SubTexture]. *)
Definition other_root : list Element :=
  [ {| tag := "Comment"; attrib := {["text"%string := "none"%string]} |} ].

Definition demo_image : Image.t := Image.opened (64, 64).

(** The destination image of the three-sprite example. *)
Definition demo_new_image : Image.t :=
  paste_all (Image.new "RGBA" (32, 32))
    [(Image.crop demo_image (0, 0, 10, 20), (0, 0));
     (Image.transpose (Image.crop demo_image (10, 0, 14, 4))
        Image.ROTATE_90, (16, 0));
     (Image.crop demo_image (14, 0, 30, 8), (0, 20))].

(** * Properties *)

(** Inversion of a successful sequence of binds. *)
Ltac bind_ok H :=
  repeat match type of H with
  | Py.bind ?c _ = Ok _ =>
      let v := fresh "v" in
      let E := fresh "E" in
      destruct c as [v|] eqn:E; cbn [Py.bind] in H; [|discriminate H]
  end.

(** ** Sanity checks on concrete inputs *)

Example int_of_str_ex1 : int_of_str "12" = Ok 12.
Proof. reflexivity. Qed.
Example int_of_str_ex2 : int_of_str " -1_000 " = Ok (-1000).
Proof. reflexivity. Qed.
Example int_of_str_ex3 : int_of_str "1__0" = Raise ValueError.
Proof. reflexivity. Qed.
Example int_of_str_ex4 : int_of_str "" = Raise ValueError.
Proof. reflexivity. Qed.
Example str_ex1 : str (-40) = "-40"%string.
Proof. reflexivity. Qed.
Example bit_length_ex : bit_length 4 = 3 /\ bit_length (-4) = 3 /\ bit_length 0 = 0.
Proof. repeat split; reflexivity. Qed.
Example ceil_sqrt_ex : (let* f := math_sqrt 960 in math_ceil f) = Ok 31.
Proof. vm_compute. reflexivity. Qed.

Example demo_parse :
  parse_sprites demo_root =
  Ok ([Sprite.Build (Some "a"%string) 0 0 10 20 0 0 false;
       Sprite.Build (Some "b"%string) 10 0 4 4 0 0 true;
       Sprite.Build (Some "c"%string) 14 0 16 8 0 0 false], 16, 20).
Proof. vm_compute. reflexivity. Qed.

(** ** The record constructor *)

Lemma Sprite_init_rotated n x y w h px py r :
  Sprite.rotated (Sprite.init n x y w h px py r) = r.
Proof. destruct r; reflexivity. Qed.

(** C1. The constructor exchanges width with height and pos_x with pos_y
    when [rotated] is true and stores the six geometry fields as given when
    it is false; the name, x, y and the [rotated] flag are always stored as
    given. *)
Theorem Sprite_init_normalization (n : option string)
    (x y w h px py : Z) :
  Sprite.init n x y w h px py true = Sprite.Build n x y h w py px true /\
  Sprite.init n x y w h px py false = Sprite.Build n x y w h px py false.
Proof. split; reflexivity. Qed.

(** ** The placement loop *)

Lemma paste_all_size im l : Image.size (paste_all im l) = Image.size im.
Proof.
  revert im. induction l as [|sb l IH]; intros im; simpl; [reflexivity|].
  rewrite IH. reflexivity.
Qed.

Lemma paste_all_canvas im l :
  Image.canvas (paste_all im l) = Image.canvas im.
Proof.
  revert im. induction l as [|sb l IH]; intros im; simpl; [reflexivity|].
  rewrite IH. reflexivity.
Qed.

Lemma paste_all_pastes im l :
  Image.pastes (paste_all im l) = Image.pastes im ++ l.
Proof.
  revert im. induction l as [|[src box] l IH]; intros im; simpl.
  - symmetry. apply app_nil_r.
  - rewrite IH. simpl. rewrite <- app_assoc. reflexivity.
Qed.

(** The loop computes the specification's grid: its output list grows by
    one [spec_record] per sprite and its image by one [spec_paste]. *)
Lemma repack_loop_spec max_width max_height src :
  forall sprite_list current_x current_y im acc,
    let grid :=
      spec_grid (fst (Image.size im)) max_width max_height
        current_x current_y (length sprite_list) in
    repack_loop sprite_list max_width max_height src current_x current_y
      im acc =
    (paste_all im (zip_with (spec_paste src) sprite_list grid),
     acc ++ zip_with (spec_record max_width max_height) sprite_list grid).
Proof.
  induction sprite_list as [|sprite rest IH]; intros cx cy im acc; simpl.
  - rewrite app_nil_r. reflexivity.
  - destruct (cx + max_width >? fst (Image.size im)) eqn:Hwrap;
      rewrite IH; simpl; rewrite <- app_assoc; reflexivity.
Qed.

Lemma spec_grid_length side cw ch cx cy n :
  length (spec_grid side cw ch cx cy n) = n.
Proof.
  revert cx cy. induction n as [|n IH]; intros cx cy; simpl;
    [reflexivity | rewrite IH; reflexivity].
Qed.

Lemma create_new_spritesheet_eq sprite_list max_width max_height src side :
  new_dimensions sprite_list max_width max_height = Ok side ->
  let grid :=
    spec_grid side max_width max_height 0 0 (length sprite_list) in
  create_new_spritesheet sprite_list max_width max_height src =
  Ok (paste_all (Image.new "RGBA" (side, side))
        (zip_with (spec_paste src) sprite_list grid),
      zip_with (spec_record max_width max_height) sprite_list grid).
Proof.
  intros Hside. unfold create_new_spritesheet. rewrite Hside. simpl.
  rewrite repack_loop_spec. reflexivity.
Qed.

(** Whatever the repacker returns is the fresh square with the catalog's
    pieces pasted along the grid, and the records along the grid. *)
Lemma create_new_spritesheet_inv sl cw ch src im nl :
  create_new_spritesheet sl cw ch src = Ok (im, nl) ->
  exists side,
    new_dimensions sl cw ch = Ok side /\
    im = paste_all (Image.new "RGBA" (side, side))
           (zip_with (spec_paste src) sl
              (spec_grid side cw ch 0 0 (length sl))) /\
    nl = zip_with (spec_record cw ch) sl
           (spec_grid side cw ch 0 0 (length sl)).
Proof.
  intros H. destruct (new_dimensions sl cw ch) as [side|e] eqn:Hside.
  - rewrite (create_new_spritesheet_eq _ _ _ src _ Hside) in H.
    injection H as <- <-. exists side. repeat split.
  - unfold create_new_spritesheet in H. rewrite Hside in H. discriminate.
Qed.

Lemma zip_with_grid_length {A B} (f : Sprite.t -> Z * Z -> A)
    (g : A -> B) (h : Sprite.t -> B) :
  (forall s p, g (f s p) = h s) ->
  forall (l : list Sprite.t) (grid : list (Z * Z)),
    length grid = length l ->
    List.map g (zip_with f l grid) = List.map h l.
Proof.
  intros Hgf. induction l as [|s l IH]; intros [|p grid] Hlen;
    simpl in *; try discriminate; [reflexivity|].
  rewrite Hgf, IH by lia. reflexivity.
Qed.

Lemma zip_with_grid_Forall {A} (f : Sprite.t -> Z * Z -> A) (P : A -> Prop) :
  (forall s p, P (f s p)) ->
  forall (l : list Sprite.t) (grid : list (Z * Z)),
    Forall P (zip_with f l grid).
Proof.
  intros Hf. induction l as [|s l IH]; intros [|p grid]; simpl;
    constructor; auto.
Qed.

(** C2. When the repacker returns, it returns one record per catalog
    entry, in catalog order: the record of an entry keeps its name, has the
    cell size as width and height, offset (0, 0), is not rotated, and sits
    at the position the row-major cursor of [spec_grid] gives it on the
    atlas side the code computed (start at (0, 0), wrap to the next row
    before placing when the cell would cross the side, advance by the cell
    width after placing). *)
Theorem repack_records (sprite_list : list Sprite.t) (cell_w cell_h : Z)
    (src im : Image.t) (new_sprite_list : list Sprite.t) :
  create_new_spritesheet sprite_list cell_w cell_h src =
    Ok (im, new_sprite_list) ->
  exists side,
    new_dimensions sprite_list cell_w cell_h = Ok side /\
    Image.size im = (side, side) /\
    length new_sprite_list = length sprite_list /\
    new_sprite_list =
      zip_with (spec_record cell_w cell_h) sprite_list
        (spec_grid side cell_w cell_h 0 0 (length sprite_list)) /\
    Forall (fun s => Sprite.width s = cell_w /\ Sprite.height s = cell_h /\
                     Sprite.pos_x s = 0 /\ Sprite.pos_y s = 0 /\
                     Sprite.rotated s = false) new_sprite_list.
Proof.
  intros Hc.
  destruct (create_new_spritesheet_inv _ _ _ _ _ _ Hc)
    as (side & Hside & -> & ->).
  exists side. split; [exact Hside|]. split; [apply paste_all_size|].
  split; [|split; [reflexivity|]].
  - rewrite length_zip_with, spec_grid_length. lia.
  - apply zip_with_grid_Forall. intros s p. simpl. auto.
Qed.

Lemma sprite_image_init src n x y w h px py r :
  sprite_image src (Sprite.init n x y w h px py r) =
  if r then Image.transpose (Image.crop src (x, y, x + w, y + h)) Image.ROTATE_90
  else Image.crop src (x, y, x + w, y + h).
Proof. destruct r; reflexivity. Qed.

(** C7. When the repacker returns, the destination image is a fresh
    square buffer onto which one piece per catalog entry is pasted, in
    catalog order; the piece of an entry is the crop
    (x, y, x+height, y+width) turned by 90 degrees when the entry is rotated
    and the crop (x, y, x+width, y+height) otherwise, and it is pasted at the
    entry's cursor position moved back by (pos_x, pos_y).  For a record
    built from raw values the crop is the raw rectangle
    (x, y, x+width, y+height) in both cases. *)
Theorem repack_pastes (sprite_list : list Sprite.t) (cell_w cell_h : Z)
    (src im : Image.t) (new_sprite_list : list Sprite.t) :
  create_new_spritesheet sprite_list cell_w cell_h src =
    Ok (im, new_sprite_list) ->
  exists side,
    new_dimensions sprite_list cell_w cell_h = Ok side /\
    let grid := spec_grid side cell_w cell_h 0 0 (length sprite_list) in
    Image.canvas im = Image.new "RGBA" (side, side) /\
    Image.pastes im =
      zip_with (fun sprite cursor =>
                  (sprite_image src sprite,
                   (fst cursor - Sprite.pos_x sprite,
                    snd cursor - Sprite.pos_y sprite)))
        sprite_list grid /\
    List.map (fun s => (Sprite.x s, Sprite.y s)) new_sprite_list = grid /\
    Forall (fun sprite =>
              sprite_image src sprite =
              if Sprite.rotated sprite then
                Image.transpose
                  (Image.crop src
                     (Sprite.x sprite, Sprite.y sprite,
                      Sprite.x sprite + Sprite.height sprite,
                      Sprite.y sprite + Sprite.width sprite))
                  Image.ROTATE_90
              else
                Image.crop src
                  (Sprite.x sprite, Sprite.y sprite,
                   Sprite.x sprite + Sprite.width sprite,
                   Sprite.y sprite + Sprite.height sprite)) sprite_list /\
    (forall n x y w h px py r,
        sprite_image src (Sprite.init n x y w h px py r) =
        if r then
          Image.transpose (Image.crop src (x, y, x + w, y + h)) Image.ROTATE_90
        else Image.crop src (x, y, x + w, y + h)).
Proof.
  intros Hc.
  destruct (create_new_spritesheet_inv _ _ _ _ _ _ Hc)
    as (side & Hside & -> & ->).
  exists side. split; [exact Hside|]. intros grid. repeat split.
  - apply paste_all_canvas.
  - rewrite paste_all_pastes. reflexivity.
  - assert (Hgen : forall (l : list Sprite.t) (g : list (Z * Z)),
               length g = length l ->
               List.map (fun s => (Sprite.x s, Sprite.y s))
                 (zip_with (spec_record cell_w cell_h) l g) = g).
    { induction l as [|s l IH]; intros [|[px py] g] Hlen;
        simpl in *; try discriminate; [reflexivity|].
      rewrite IH by lia. reflexivity. }
    apply Hgen, spec_grid_length.
  - apply Forall_forall. intros sprite _. reflexivity.
  - intros. apply sprite_image_init.
Qed.

(** C10. When the repacker returns, its output list is as long as the
    catalog and carries the catalog's names in the same order. *)
Theorem repack_names (sprite_list : list Sprite.t) (cell_w cell_h : Z)
    (src im : Image.t) (new_sprite_list : list Sprite.t) :
  create_new_spritesheet sprite_list cell_w cell_h src =
    Ok (im, new_sprite_list) ->
  length new_sprite_list = length sprite_list /\
  List.map Sprite.name new_sprite_list = List.map Sprite.name sprite_list /\
  (forall i sprite,
      sprite_list !! i = Some sprite ->
      exists new_sprite,
        new_sprite_list !! i = Some new_sprite /\
        Sprite.name new_sprite = Sprite.name sprite).
Proof.
  intros Hc.
  destruct (create_new_spritesheet_inv _ _ _ _ _ _ Hc)
    as (side & Hside & -> & ->).
  set (grid := spec_grid side cell_w cell_h 0 0 (length sprite_list)).
  assert (Hlen : length grid = length sprite_list) by apply spec_grid_length.
  split; [rewrite length_zip_with; lia|].
  split; [apply zip_with_grid_length; [reflexivity|exact Hlen]|].
  intros i sprite Hi.
  destruct (lookup_lt_is_Some_2 grid i) as [p Hp];
    [rewrite Hlen; eapply lookup_lt_Some; eassumption|].
  exists (spec_record cell_w cell_h sprite p). split; [|reflexivity].
  rewrite lookup_zip_with, Hi. simpl. rewrite Hp. reflexivity.
Qed.

(** ** Binary64 square roots of integers

    Below 2^52 the conversion to [float] is exact and the correctly rounded
    square root has the same ceiling as the real one. *)

Lemma digits2_pos_size p : digits2_pos p = Pos.size p.
Proof. induction p; simpl; congruence. Qed.

Lemma size_bounds p : 2 ^ (Zpos (Pos.size p) - 1) <= Zpos p < 2 ^ Zpos (Pos.size p).
Proof.
  induction p as [p IH|p IH|].
  - cbn [Pos.size]. rewrite Pos2Z.inj_succ.
    replace (Z.succ (Zpos (Pos.size p)) - 1) with (Z.succ (Zpos (Pos.size p) - 1)) by lia.
    rewrite !Z.pow_succ_r by lia. lia.
  - cbn [Pos.size]. rewrite Pos2Z.inj_succ.
    replace (Z.succ (Zpos (Pos.size p)) - 1) with (Z.succ (Zpos (Pos.size p) - 1)) by lia.
    rewrite !Z.pow_succ_r by lia. lia.
  - simpl. lia.
Qed.

Lemma size_unique p d :
  2 ^ (d - 1) <= Zpos p < 2 ^ d -> Zpos (Pos.size p) = d.
Proof.
  intros [Hlo Hhi]. pose proof (size_bounds p) as [Slo Shi].
  assert (0 < d).
  { destruct (Z.ltb_spec 0 d) as [?|Hd]; [assumption|].
    assert (2 ^ d <= 2 ^ 0) by (destruct (Z.eq_dec d 0) as [->|]; [lia|rewrite Z.pow_neg_r by lia; simpl; lia]).
    simpl in *. lia. }
  destruct (Z.lt_trichotomy (Zpos (Pos.size p)) d) as [Hlt|[Heq|Hgt]]; [|assumption|].
  - assert (2 ^ Zpos (Pos.size p) <= 2 ^ (d - 1)) by (apply Z.pow_le_mono_r; lia). lia.
  - assert (2 ^ d <= 2 ^ (Zpos (Pos.size p) - 1)) by (apply Z.pow_le_mono_r; lia). lia.
Qed.

Lemma iter_xO p k : Zpos (Pos.iter xO p k) = Zpos p * 2 ^ Zpos k.
Proof.
  induction k as [|k IH] using Pos.peano_ind.
  - simpl. lia.
  - rewrite Pos.iter_succ, Pos2Z.inj_succ, Z.pow_succ_r by lia.
    rewrite Pos2Z.inj_xO, IH. lia.
Qed.

(** A 53-bit mantissa with an exponent in range is stored as it is. *)
Lemma binary_round_aux_53 s m e l :
  2 ^ 52 <= m -> round_nearest_even m l < 2 ^ 53 -> m <= round_nearest_even m l ->
  -1074 <= e <= 971 ->
  binary_round_aux prec emax s m e l =
  S754_finite s (Z.to_pos (round_nearest_even m l)) e.
Proof.
  intros Hm Hr Hmr He.
  assert (Hd : forall n, 2 ^ 52 <= n < 2 ^ 53 -> Zdigits2 n = 53).
  { intros n Hn. destruct n as [|p|p]; try (simpl in Hn; lia).
    simpl. rewrite digits2_pos_size. apply size_unique. simpl. lia. }
  assert (Hsh : forall n l', 2 ^ 52 <= n < 2 ^ 53 ->
            shr_fexp prec emax n e l' = (shr_record_of_loc n l', e)).
  { intros n l' Hn. unfold shr_fexp. rewrite (Hd n Hn).
    unfold fexp, emin, prec, emax.
    replace (Z.max (53 + e - 53) (3 - 1024 - 53) - e) with 0 by lia.
    reflexivity. }
  unfold binary_round_aux.
  rewrite Hsh by lia.
  assert (Hl : loc_of_shr_record (shr_record_of_loc m l) = l) by (destruct l as [|[]]; reflexivity).
  assert (Hm' : shr_m (shr_record_of_loc m l) = m) by (destruct l as [|[]]; reflexivity).
  rewrite Hl, Hm'. rewrite Hsh by lia. simpl shr_m.
  destruct (round_nearest_even m l) as [|q|q] eqn:Hq; try lia.
  unfold emax, prec. replace (e <=? 1024 - 53) with true by (symmetry; apply Z.leb_le; lia).
  reflexivity.
Qed.

(** Conversion of a positive integer below 2^53 is exact. *)
Lemma float_of_int_exact p :
  Zpos p < 2 ^ 53 ->
  let d := Zpos (Pos.size p) in
  float_of_int (Zpos p) = Ok (S754_finite false (Z.to_pos (Zpos p * 2 ^ (53 - d))) (d - 53)).
Proof.
  intros Hp d. pose proof (size_bounds p) as [Hlo Hhi]. fold d in Hlo, Hhi.
  assert (Hd : 1 <= d <= 53).
  { split; [unfold d; lia|].
    destruct (Z.leb_spec d 53); [assumption|].
    assert (2 ^ 53 <= 2 ^ (d - 1)) by (apply Z.pow_le_mono_r; lia). lia. }
  unfold float_of_int, binary_normalize, binary_round.
  rewrite digits2_pos_size. fold d.
  unfold shl_align, fexp, emin, prec, emax.
  replace (Z.max (d + 0 - 53) (3 - 1024 - 53) - 0) with (d - 53) by lia.
  replace (Z.max (d + 0 - 53) (3 - 1024 - 53)) with (d - 53) by lia.
  assert (Hpow : 2 ^ 53 = 2 ^ (d - 1) * 2 ^ (53 - d) * 2).
  { replace 53 with ((d - 1) + (53 - d) + 1) at 1 by lia.
    rewrite !Z.pow_add_r by lia. reflexivity. }
  assert (Hpow' : 2 ^ d = 2 ^ (d - 1) * 2).
  { replace d with ((d - 1) + 1) at 1 by lia.
    rewrite Z.pow_add_r by lia. reflexivity. }
  assert (0 < 2 ^ (53 - d)) by (apply Z.pow_pos_nonneg; lia).
  assert (0 < 2 ^ (d - 1)) by (apply Z.pow_pos_nonneg; lia).
  destruct (d - 53) as [|k|k] eqn:Hk.
  - assert (d = 53) by lia. 
    change (binary_round_aux 53 1024) with (binary_round_aux prec emax).
    rewrite binary_round_aux_53; simpl round_nearest_even; try lia.
    + replace (53 - d) with 0 by lia. rewrite Z.mul_1_r. reflexivity.
    + subst d. rewrite H1 in Hlo. simpl in Hlo. simpl. lia.
  - lia.
  - change (binary_round_aux 53 1024) with (binary_round_aux prec emax).
    rewrite binary_round_aux_53; simpl round_nearest_even; rewrite ?iter_xO; try lia.
    + replace (53 - d) with (Zpos k) by lia. reflexivity.
    + replace (Zpos k) with (53 - d) by lia. nia.
    + replace (Zpos k) with (53 - d) by lia. nia.
Qed.

(** The arithmetic behind the rounded square root of a scaled integer. *)
Lemma sqrt_round_bounds a k T H q r :
  0 <= k -> k * k <= a < (k + 1) * (k + 1) ->
  k + 1 <= H -> H * T = 2 ^ 53 -> 2 ^ 27 <= T ->
  2 ^ 104 <= a * (T * T) ->
  a * (T * T) = q * q + r -> 0 <= r <= 2 * q ->
  let l := if r =? 0 then loc_Exact
           else loc_Inexact (if r <=? q then Lt else Gt) in
  let q' := round_nearest_even q l in
  2 ^ 52 <= q /\ q <= q' /\ q' < 2 ^ 53 /\
  (a = k * k -> q' = k * T) /\
  (k * k < a -> k * T < q' <= (k + 1) * T).
Proof.
  intros Hk Ha HkH HHT HT Hbig Hq Hr l q'.
  change (2 ^ 53) with 9007199254740992 in *.
  change (2 ^ 27) with 134217728 in *.
  change (2 ^ 52) with 4503599627370496 in *.
  change (2 ^ 104) with 20282409603651670423947251286016 in *.
  assert (Hq0 : 0 <= q) by lia.
  assert (HH : H <= 67108864) by nia.
  assert (Hq52 : 4503599627370496 <= q).
  { destruct (Z.leb_spec 4503599627370496 q); [assumption|].
    assert ((q + 1) * (q + 1) <= 4503599627370496 * 4503599627370496)
      by (apply Z.mul_le_mono_nonneg; lia).
    lia. }
  assert (Hqq' : q <= q' <= q + 1).
  { unfold q', l. destruct (r =? 0); [simpl; lia|].
    destruct (r <=? q); simpl; lia. }
  assert (Hup : q + 1 <= (k + 1) * T).
  { destruct (Z.leb_spec (q + 1) ((k + 1) * T)); [assumption|].
    assert (((k + 1) * T) * ((k + 1) * T) <= q * q)
      by (apply Z.mul_le_mono_nonneg; nia).
    assert ((a + 1) * (T * T) <= (k + 1) * (k + 1) * (T * T))
      by (apply Z.mul_le_mono_nonneg_r; nia).
    nia. }
  assert (Hsq : a = k * k -> q = k * T /\ r = 0).
  { intros ->.
    assert (q = k * T); [|nia].
    destruct (Z.lt_trichotomy q (k * T)) as [Hlt|[Heq|Hgt]]; [|assumption|].
    - assert ((q + 1) * (q + 1) <= (k * T) * (k * T))
        by (apply Z.mul_le_mono_nonneg; lia). nia.
    - assert ((k * T + 1) * (k * T + 1) <= q * q)
        by (apply Z.mul_le_mono_nonneg; nia). nia. }
  assert (Hns : k * k < a -> k * T + 1 <= q).
  { intros Hlt. destruct (Z.leb_spec (k * T + 1) q); [assumption|].
    assert (q * q <= (k * T) * (k * T)) by (apply Z.mul_le_mono_nonneg; lia).
    assert ((k * k + 1) * (T * T) <= a * (T * T))
      by (apply Z.mul_le_mono_nonneg_r; nia).
    assert (T * T <= 2 * k * T) by nia.
    assert (T <= 2 * k) by nia. nia. }
  split; [exact Hq52|]. split; [lia|]. split; [|split].
  - (* q' < 2^53 *)
    destruct (Z.eq_dec a (k * k)) as [Heq|Hne].
    + destruct (Hsq Heq) as [Hqk Hr0]. unfold q', l. rewrite Hr0. simpl. nia.
    + assert (q' <= (k + 1) * T) by lia.
      assert ((k + 1) * T <= H * T) by (apply Z.mul_le_mono_nonneg_r; lia).
      destruct (Z.eq_dec q' 9007199254740992) as [Hq'|]; [|lia].
      exfalso.
      assert (q = 9007199254740991) by lia.
      assert (Hrq : q < r).
      { unfold q', l in Hq'. destruct (r =? 0); [simpl in Hq'; lia|].
        destruct (Z.leb_spec r q); [simpl in Hq'; lia|lia]. }
      assert (k + 1 = H) by nia.
      assert ((a + 1) * (T * T) <= (k + 1) * (k + 1) * (T * T))
        by (apply Z.mul_le_mono_nonneg_r; nia).
      assert (134217728 * 134217728 <= T * T) by (apply Z.mul_le_mono_nonneg; lia).
      assert ((k + 1) * (k + 1) * (T * T) = (H * T) * (H * T)) by (subst H; ring).
      rewrite HHT in *. subst q. nia.
  - intros Heq. destruct (Hsq Heq) as [Hqk Hr0]. unfold q', l. rewrite Hr0. simpl. assumption.
  - intros Hlt. specialize (Hns Hlt). lia.
Qed.

Lemma ceil_div_unique q k T :
  0 < T -> k * T < q <= (k + 1) * T -> - (- q / T) = k + 1.
Proof.
  intros HT Hq.
  assert (- q / T = - (k + 1)); [|lia].
  symmetry. apply (Z.div_unique_pos _ _ _ ((k + 1) * T - q)); lia.
Qed.

Lemma ceil_sqrt_cases a :
  0 <= a ->
  let k := Z.sqrt a in
  (a = k * k /\ ceil_sqrt a = k) \/ (k * k < a /\ ceil_sqrt a = k + 1).
Proof.
  intros Ha k. unfold ceil_sqrt. fold k.
  pose proof (Z.sqrt_spec a Ha) as Hs. cbv zeta in Hs. fold k in Hs.
  destruct (Z.eqb_spec (k * k) a); [left|right]; lia.
Qed.

Lemma ceil_sqrt_float_pos p :
  Zpos p < 2 ^ 52 ->
  (let* f := math_sqrt (Zpos p) in math_ceil f) = Ok (ceil_sqrt (Zpos p)).
Proof.
  intros Hp.
  unfold math_sqrt. rewrite float_of_int_exact by (change (2 ^ 53) with (2 * 2 ^ 52); lia).
  cbn [bind].
  set (a := Zpos p) in *. set (d := Zpos (Pos.size p)).
  pose proof (size_bounds p) as [Hlo Hhi]. fold d a in Hlo, Hhi.
  assert (Hd : 1 <= d <= 52).
  { split; [unfold d; lia|].
    destruct (Z.leb_spec d 52); [assumption|].
    assert (2 ^ 52 <= 2 ^ (d - 1)) by (apply Z.pow_le_mono_r; lia). lia. }
  set (h := (d + 1) / 2).
  assert (Hh : 2 * h <= d + 1 <= 2 * h + 1).
  { unfold h. pose proof (Z.div_mod (d + 1) 2 ltac:(lia)).
    pose proof (Z.mod_pos_bound (d + 1) 2 ltac:(lia)). lia. }
  set (T := 2 ^ (53 - h)). set (H := 2 ^ h).
  assert (HHT : H * T = 2 ^ 53).
  { unfold H, T. rewrite <- Z.pow_add_r by lia. f_equal. lia. }
  assert (HT : 2 ^ 27 <= T) by (apply Z.pow_le_mono_r; lia).
  assert (HTT : T * T = 2 ^ (106 - 2 * h)).
  { unfold T. rewrite <- Z.pow_add_r by lia. f_equal. lia. }
  assert (Hm : a * 2 ^ (53 - d) * 2 ^ (d + 53 - 2 * h) = a * (T * T)).
  { rewrite HTT, <- Z.mul_assoc, <- Z.pow_add_r by lia. do 2 f_equal. lia. }
  assert (H53d : 0 < 2 ^ (53 - d)) by (apply Z.pow_pos_nonneg; lia).
  assert (Hmz : Zpos (Z.to_pos (a * 2 ^ (53 - d))) = a * 2 ^ (53 - d))
    by (apply Z2Pos.id; unfold a; lia).
  assert (Hdig : Zdigits2 (Zpos (Z.to_pos (a * 2 ^ (53 - d)))) = 53).
  { simpl. rewrite digits2_pos_size. apply size_unique. rewrite Hmz.
    assert (2 ^ 53 = 2 ^ d * 2 ^ (53 - d)) by (rewrite <- Z.pow_add_r by lia; f_equal; lia).
    assert (2 ^ (53 - 1) = 2 ^ (d - 1) * 2 ^ (53 - d)) by (rewrite <- Z.pow_add_r by lia; f_equal; lia).
    nia. }
  unfold SFsqrt, SFsqrt_core_binary. rewrite Hdig, Hmz.
  rewrite !Z.div2_div.
  replace (53 + (d - 53) + 1) with (d + 1) by lia. fold h.
  assert (He' : Z.min (fexp prec emax h) ((d - 53) / 2) = h - 53).
  { unfold fexp, emin, prec, emax.
    assert (-26 <= (d - 53) / 2) by (apply Z.div_le_lower_bound; lia). lia. }
  rewrite He'.
  replace (d - 53 - 2 * (h - 53)) with (d + 53 - 2 * h) by lia.
  destruct (d + 53 - 2 * h) as [|s|s] eqn:Hs; try lia.
  rewrite Z.shiftl_mul_pow2 by lia. rewrite Hm.
  pose proof (Z.sqrtrem_spec (a * (T * T)) ltac:(unfold a; nia)) as Hqr.
  destruct (Z.sqrtrem (a * (T * T))) as [q r].
  set (k := Z.sqrt a).
  pose proof (Z.sqrt_spec a ltac:(unfold a; lia)) as Hk. cbv zeta in Hk. fold k in Hk.
  assert (Hk0 : 0 <= k) by apply Z.sqrt_nonneg.
  assert (HkH : k + 1 <= H).
  { assert (a < H * H).
    { unfold H. rewrite <- Z.pow_add_r by lia.
      assert (2 ^ d <= 2 ^ (h + h)) by (apply Z.pow_le_mono_r; lia). lia. }
    assert (0 < H) by (apply Z.pow_pos_nonneg; lia).
    destruct (Z.leb_spec (k + 1) H); [assumption|].
    assert (H * H <= k * k) by (apply Z.mul_le_mono_nonneg; lia). lia. }
  assert (Hbig : 2 ^ 104 <= a * (T * T)).
  { rewrite HTT.
    assert (2 ^ 104 <= 2 ^ (d - 1) * 2 ^ (106 - 2 * h)).
    { rewrite <- Z.pow_add_r by lia. apply Z.pow_le_mono_r; lia. }
    assert (0 < 2 ^ (106 - 2 * h)) by (apply Z.pow_pos_nonneg; lia).
    nia. }
  destruct Hqr as [Hqr Hr].
  destruct (sqrt_round_bounds a k T H q r Hk0 ltac:(lia) HkH HHT HT Hbig Hqr Hr)
    as (Hq52 & Hqq' & Hq53 & Hsq & Hns).
  rewrite binary_round_aux_53; try assumption; try lia.
  cbn [math_ceil].
  destruct (Z.leb_spec 0 (h - 53)); [lia|].
  replace (- (h - 53)) with (53 - h) by lia. fold T.
  set (q' := round_nearest_even q _) in *.
  rewrite Z2Pos.id by lia.
  assert (0 < T) by (apply Z.pow_pos_nonneg; lia).
  destruct (ceil_sqrt_cases a ltac:(unfold a; lia)) as [[Ha Hc]|[Ha Hc]]; fold k in Ha, Hc; rewrite Hc.
  - rewrite (Hsq Ha). f_equal. rewrite <- Z.mul_opp_l, Z.div_mul by lia. lia.
  - f_equal. apply ceil_div_unique; [assumption|]. apply Hns, Ha.
Qed.

Lemma ceil_sqrt_float a :
  0 <= a <= 2 ^ 52 ->
  (let* f := math_sqrt a in math_ceil f) = Ok (ceil_sqrt a).
Proof.
  intros [Hlo Hhi]. destruct a as [|p|p]; [reflexivity| |lia].
  destruct (Z.eq_dec (Zpos p) (2 ^ 52)) as [->|Hne].
  - vm_compute. reflexivity.
  - apply ceil_sqrt_float_pos. lia.
Qed.

(** [ceil_sqrt] is the ceiling of the real square root. *)
Lemma ceil_sqrt_spec a :
  0 <= a ->
  0 <= ceil_sqrt a /\ a <= ceil_sqrt a * ceil_sqrt a /\
  forall c, 0 <= c -> a <= c * c -> ceil_sqrt a <= c.
Proof.
  intros Ha. pose proof (Z.sqrt_nonneg a) as Hk.
  pose proof (Z.sqrt_spec a Ha) as Hs. cbv zeta in Hs.
  destruct (ceil_sqrt_cases a Ha) as [[Heq ->]|[Hlt ->]].
  - split; [assumption|]. split; [lia|].
    intros c Hc Hac. destruct (Z.leb_spec (Z.sqrt a) c); [assumption|].
    assert ((c + 1) * (c + 1) <= Z.sqrt a * Z.sqrt a)
      by (apply Z.mul_le_mono_nonneg; lia). lia.
  - split; [lia|]. split; [lia|].
    intros c Hc Hac. destruct (Z.leb_spec (Z.sqrt a + 1) c); [assumption|].
    assert (c * c <= Z.sqrt a * Z.sqrt a)
      by (apply Z.mul_le_mono_nonneg; lia). lia.
Qed.

(** ** The atlas side *)

Lemma total_area_eq sprite_list max_width max_height :
  total_area sprite_list max_width max_height =
  Z.of_nat (length sprite_list) * max_width * max_height.
Proof.
  unfold total_area.
  assert (Hgen : forall acc,
             fold_left (fun acc _ => acc + max_width * max_height)
               sprite_list acc =
             acc + Z.of_nat (length sprite_list) * max_width * max_height).
  { induction sprite_list as [|s l IH]; intros acc; simpl length.
    - simpl. lia.
    - cbn [fold_left]. rewrite IH. lia. }
  rewrite Hgen. lia.
Qed.

(** For an input of at least one, [next_power_of_two] is the least power of
    two that is not below it. *)
Lemma next_power_of_two_spec n :
  1 <= n ->
  exists k, 0 <= k /\ next_power_of_two n = 2 ^ k /\ n <= 2 ^ k /\
            forall j, 0 <= j -> n <= 2 ^ j -> 2 ^ k <= 2 ^ j.
Proof.
  intros Hn. unfold next_power_of_two.
  destruct (Z.eqb_spec n 0) as [?|_]; [lia|].
  destruct (n - 1) as [|p|p] eqn:Hp; try lia.
  - exists 0. cbn [bit_length].
    split; [lia|]. split; [reflexivity|]. split; [simpl; lia|].
    intros j Hj _. apply Z.pow_le_mono_r; lia.
  - pose proof (size_bounds p) as [Hlo Hhi].
    exists (Zpos (Pos.size p)). cbn [bit_length].
    split; [lia|]. split; [reflexivity|]. split; [lia|].
    intros j Hj Hnj. apply Z.pow_le_mono_r; [lia|].
    destruct (Z.leb_spec (Zpos (Pos.size p)) j); [assumption|].
    assert (2 ^ j <= 2 ^ (Zpos (Pos.size p) - 1))
      by (apply Z.pow_le_mono_r; lia). lia.
Qed.

Lemma new_dimensions_exact sprite_list max_width max_height :
  0 <= Z.of_nat (length sprite_list) * max_width * max_height <= 2 ^ 52 ->
  new_dimensions sprite_list max_width max_height =
  Ok (spec_side (length sprite_list) max_width max_height).
Proof.
  intros Harea. unfold new_dimensions, spec_side.
  rewrite total_area_eq.
  pose proof (ceil_sqrt_float _ Harea) as Hc.
  destruct (math_sqrt _) as [f|e]; [|discriminate].
  cbn [bind] in *. rewrite Hc. reflexivity.
Qed.

(** C3, as amended. When the total cell area is at most 2^52 the code
    computes the side next_power_of_two(ceil(sqrt(n * cell_w * cell_h))),
    and the destination atlas, when the repacker returns one, is a square
    of that side; the ceiling of
    the square root is the least integer whose square reaches the area;
    next_power_of_two(0) is 1 and for an input of at least one it is the
    least power of two not below the input; next_power_of_two(5) = 8 and
    next_power_of_two(16) = 16. *)
Theorem atlas_side_small_area (sprite_list : list Sprite.t)
    (cell_w cell_h : Z) (src : Image.t) :
  let n := length sprite_list in
  let area := Z.of_nat n * cell_w * cell_h in
  0 <= area <= 2 ^ 52 ->
  let side := next_power_of_two (ceil_sqrt area) in
  new_dimensions sprite_list cell_w cell_h = Ok side /\
  (forall im new_sprite_list,
      create_new_spritesheet sprite_list cell_w cell_h src =
        Ok (im, new_sprite_list) ->
      Image.canvas im = Image.new "RGBA" (side, side) /\
      Image.size im = (side, side)) /\
  (0 <= ceil_sqrt area /\ area <= ceil_sqrt area * ceil_sqrt area /\
   forall c, 0 <= c -> area <= c * c -> ceil_sqrt area <= c) /\
  next_power_of_two 0 = 1 /\
  (forall m, 1 <= m ->
     exists k, 0 <= k /\ next_power_of_two m = 2 ^ k /\ m <= 2 ^ k /\
               forall j, 0 <= j -> m <= 2 ^ j -> 2 ^ k <= 2 ^ j) /\
  next_power_of_two 5 = 8 /\ next_power_of_two 16 = 16.
Proof.
  intros n area Harea side.
  pose proof (new_dimensions_exact sprite_list cell_w cell_h Harea) as Hside.
  split; [exact Hside|]. split.
  - intros im new_sprite_list Hc.
    rewrite (create_new_spritesheet_eq _ _ _ src _ Hside) in Hc.
    injection Hc as <- _.
    split; [apply paste_all_canvas|apply paste_all_size].
  - split; [apply ceil_sqrt_spec; lia|].
    split; [reflexivity|].
    split; [apply next_power_of_two_spec|].
    split; reflexivity.
Qed.

(** C3, as stated, fails above 2^52: for one sprite and the cell size
    4 x (2^54 + 4) the area is 2^56 + 16, whose binary64 square root rounds
    to 2^28, so the code's side is 2^28 while the stated formula gives
    2^29.  The first area that fails is 2^52 + 1. *)
Lemma atlas_side_large_area :
  (new_dimensions [any_sprite] 4 (2 ^ 54 + 4) = Ok (2 ^ 28) /\
   spec_side 1 4 (2 ^ 54 + 4) = 2 ^ 29) /\
  (new_dimensions [any_sprite] 1 (2 ^ 52 + 1) = Ok (2 ^ 26) /\
   spec_side 1 1 (2 ^ 52 + 1) = 2 ^ 27).
Proof. repeat split; vm_compute; reflexivity. Qed.

Lemma atlas_side_small_area_witness :
  new_dimensions [any_sprite; any_sprite; any_sprite] 16 20 = Ok 32.
Proof.
  pose proof (atlas_side_small_area [any_sprite; any_sprite; any_sprite]
                16 20 (Image.opened (64, 64))) as H.
  cbv zeta in H.
  refine (proj1 (H _)).
  vm_compute. split; discriminate.
Defined.

(** ** Reading a descriptor *)

Lemma sprite_of_sub_texture_inv e s :
  sprite_of_sub_texture e = Ok s ->
  exists x y w h px py,
    int_of_get (attrib e !! "x"%string) = Ok x /\
    int_of_get (attrib e !! "y"%string) = Ok y /\
    int_of_get (attrib e !! "width"%string) = Ok w /\
    int_of_get (attrib e !! "height"%string) = Ok h /\
    int_of_get_default0 (attrib e !! "frameX"%string) = Ok px /\
    int_of_get_default0 (attrib e !! "frameY"%string) = Ok py /\
    s = Sprite.init (attrib e !! "name"%string) x y w h px py
          (bool_of_get_defaultFalse (attrib e !! "rotated"%string)).
Proof.
  unfold sprite_of_sub_texture. intros H. bind_ok H.
  injection H as <-. eexists _, _, _, _, _, _. repeat split.
Qed.

Lemma bool_of_str_true v : bool_of_str v = true <-> v <> ""%string.
Proof. destruct v; simpl; split; congruence. Qed.

(** C6. The [rotated] flag of a parsed descriptor is true exactly when the
    [rotated] attribute is present with a non-empty value, whatever the
    text of that value. *)
Theorem rotated_flag_of_attribute (e : Element) (s : Sprite.t) :
  sprite_of_sub_texture e = Ok s ->
  (Sprite.rotated s = true <->
   exists v, attrib e !! "rotated"%string = Some v /\ v <> ""%string) /\
  (attrib e !! "rotated"%string = None -> Sprite.rotated s = false) /\
  (attrib e !! "rotated"%string = Some ""%string -> Sprite.rotated s = false) /\
  (attrib e !! "rotated"%string = Some "false"%string ->
   Sprite.rotated s = true).
Proof.
  intros H. apply sprite_of_sub_texture_inv in H.
  destruct H as (x & y & w & h & px & py & _ & _ & _ & _ & _ & _ & ->).
  rewrite Sprite_init_rotated.
  destruct (attrib e !! "rotated"%string) as [v|]; cbn [bool_of_get_defaultFalse].
  - split; [|repeat split; try discriminate; intros [= ->]; reflexivity].
    rewrite bool_of_str_true. split.
    + intros Hv. exists v. split; [reflexivity|exact Hv].
    + intros (v' & [= <-] & Hv). exact Hv.
  - split; [|repeat split; try discriminate; reflexivity].
    split; [discriminate|]. intros (v & Hv & _). discriminate.
Qed.

Lemma rotated_flag_of_attribute_witness :
  Sprite.rotated (Sprite.Build (Some "r"%string) 1 2 5 3 (-2) (-1) true) = true.
Proof.
  refine (proj2 (proj2 (proj2
    (rotated_flag_of_attribute rotated_false_element
       (Sprite.Build (Some "r"%string) 1 2 5 3 (-2) (-1) true) _))) _);
    vm_compute; reflexivity.
Defined.

(** ** Record equality *)

Lemma Sprite_eq_iff s1 s2 :
  Sprite.eq s1 s2 = true <->
  Sprite.x s1 = Sprite.x s2 /\ Sprite.y s1 = Sprite.y s2 /\
  Sprite.width s1 = Sprite.width s2 /\ Sprite.height s1 = Sprite.height s2 /\
  Sprite.pos_x s1 = Sprite.pos_x s2 /\ Sprite.pos_y s1 = Sprite.pos_y s2.
Proof.
  unfold Sprite.eq. rewrite !andb_true_iff, !Z.eqb_eq. tauto.
Qed.

Lemma Sprite_eq_refl s : Sprite.eq s s = true.
Proof. apply Sprite_eq_iff. repeat split. Qed.

Lemma Sprite_eq_sym s1 s2 : Sprite.eq s1 s2 = Sprite.eq s2 s1.
Proof.
  unfold Sprite.eq.
  rewrite (Z.eqb_sym (Sprite.x s1)), (Z.eqb_sym (Sprite.y s1)),
    (Z.eqb_sym (Sprite.width s1)), (Z.eqb_sym (Sprite.height s1)),
    (Z.eqb_sym (Sprite.pos_x s1)), (Z.eqb_sym (Sprite.pos_y s1)).
  reflexivity.
Qed.

Lemma Sprite_eq_trans s1 s2 s3 :
  Sprite.eq s1 s2 = true -> Sprite.eq s2 s3 = true -> Sprite.eq s1 s3 = true.
Proof.
  rewrite !Sprite_eq_iff. intros H12 H23.
  repeat split; etransitivity; (apply H12 || apply H23).
Qed.

(** ** The parser against the specification's catalog and maxima *)

Lemma fold_right_max_floor (l : list Z) (m a : Z) :
  fold_right Z.max (Z.max m a) l = Z.max a (fold_right Z.max m l).
Proof. induction l as [|b l IH]; simpl; [lia | rewrite IH; lia]. Qed.

Lemma parse_loop_spec sub_textures :
  forall sprites, sprites_of sub_textures = Ok sprites ->
  forall sprite_list max_width max_height,
    parse_loop sub_textures sprite_list max_width max_height =
    Ok (fold_left spec_catalog_add sprites sprite_list,
        maximum_from max_width (List.map trim_width sprites),
        maximum_from max_height (List.map trim_height sprites)).
Proof.
  induction sub_textures as [|e rest IH]; intros sprites Hs cat mw mh.
  - injection Hs as <-. reflexivity.
  - cbn [sprites_of] in Hs. bind_ok Hs. injection Hs as <-.
    cbn [parse_loop]. rewrite E. cbn [Py.bind].
    assert (Hadd : (if negb (contains cat v) then cat ++ [v] else cat) =
                   spec_catalog_add cat v)
      by (unfold spec_catalog_add; destruct (contains cat v); reflexivity).
    rewrite Hadd, (IH _ eq_refl). unfold maximum_from.
    cbn [List.map fold_right fold_left].
    rewrite !fold_right_max_floor. reflexivity.
Qed.

Lemma parse_loop_raise sub_textures :
  forall e, sprites_of sub_textures = Raise e ->
  forall sprite_list max_width max_height,
    parse_loop sub_textures sprite_list max_width max_height = Raise e.
Proof.
  induction sub_textures as [|el rest IH]; intros e Hs cat mw mh.
  - discriminate.
  - cbn [sprites_of parse_loop] in *.
    destruct (sprite_of_sub_texture el) as [s|e']; cbn [Py.bind] in *;
      [|congruence].
    destruct (sprites_of rest) as [l|e'']; cbn [Py.bind] in *; [discriminate|].
    apply IH. congruence.
Qed.

Lemma next_multiple_4 n : next_multiple n SPRITE_SIZE_MULTIPLE = Ok (round4 n).
Proof.
  unfold next_multiple, round4, SPRITE_SIZE_MULTIPLE. cbn [Z.eqb].
  destruct (n mod 4 =? 0); reflexivity.
Qed.

Lemma round4_spec n :
  (n mod 4 = 0 -> round4 n = n) /\
  (n mod 4 <> 0 ->
   n < round4 n /\ round4 n mod 4 = 0 /\
   forall r, n < r -> r mod 4 = 0 -> round4 n <= r).
Proof.
  unfold round4. pose proof (Z.mod_pos_bound n 4 ltac:(lia)) as Hb.
  pose proof (Z.div_mod n 4 ltac:(lia)) as Hn.
  destruct (Z.eqb_spec (n mod 4) 0) as [H0|H0]; split; try tauto.
  intros _. split; [lia|]. split.
  - replace (n + (4 - n mod 4)) with ((n / 4 + 1) * 4) by lia.
    apply Z.mod_mul. lia.
  - intros r Hr Hr4. pose proof (Z.div_mod r 4 ltac:(lia)) as Hrd.
    rewrite Hr4 in Hrd. lia.
Qed.

Lemma parse_sprites_spec xml_root sprites :
  sprites_of (findall xml_root "SubTexture") = Ok sprites ->
  parse_sprites xml_root =
  Ok (spec_catalog sprites,
      round4 (maximum_from 0 (List.map trim_width sprites)),
      round4 (maximum_from 0 (List.map trim_height sprites))).
Proof.
  intros Hs. unfold parse_sprites.
  rewrite (parse_loop_spec _ _ Hs). cbn [Py.bind].
  rewrite !next_multiple_4. reflexivity.
Qed.

Lemma parse_sprites_inv xml_root catalog max_width max_height :
  parse_sprites xml_root = Ok (catalog, max_width, max_height) ->
  exists sprites,
    sprites_of (findall xml_root "SubTexture") = Ok sprites /\
    catalog = spec_catalog sprites /\
    max_width = round4 (maximum_from 0 (List.map trim_width sprites)) /\
    max_height = round4 (maximum_from 0 (List.map trim_height sprites)).
Proof.
  intros Hp.
  destruct (sprites_of (findall xml_root "SubTexture")) as [sprites|e] eqn:Hs.
  - rewrite (parse_sprites_spec _ _ Hs) in Hp. injection Hp as <- <- <-.
    exists sprites. repeat split.
  - unfold parse_sprites in Hp.
    rewrite (parse_loop_raise _ _ Hs) in Hp. discriminate.
Qed.

Lemma fold_left_max_fold_right (l : list Z) (a : Z) :
  fold_left Z.max l a = fold_right Z.max a l.
Proof.
  revert a. induction l as [|b l IH]; intros a; simpl; [reflexivity|].
  rewrite IH, fold_right_max_floor. lia.
Qed.

Lemma maximum_from_spec_maximum (l : list Z) (M : Z) :
  spec_maximum l = Some M -> maximum_from 0 l = Z.max 0 M.
Proof.
  destruct l as [|a r]; [discriminate|]. intros [= <-].
  rewrite fold_left_max_fold_right. unfold maximum_from. simpl.
  pose proof (fold_right_max_floor r 0 a) as H1.
  pose proof (fold_right_max_floor r a 0) as H2.
  rewrite Z.max_comm in H2. lia.
Qed.

(** C5, as amended. For a descriptor sequence whose records can all be
    constructed, the parser returns as max_width and max_height the maxima
    of 0 and of (width - pos_x), respectively (height - pos_y), over all
    constructed records, duplicates included, each rounded up to a multiple
    of 4; the rounding returns n when n % 4 == 0 and otherwise the least
    multiple of 4 above n, so 5 gives 8 and 8 gives 8. *)
Theorem parse_sprites_maxima (xml_root : list Element)
    (sprites : list Sprite.t) :
  sprites_of (findall xml_root "SubTexture") = Ok sprites ->
  let widths := List.map trim_width sprites in
  let heights := List.map trim_height sprites in
  (exists catalog,
      parse_sprites xml_root =
      Ok (catalog, round4 (maximum_from 0 widths),
          round4 (maximum_from 0 heights))) /\
  (forall M, spec_maximum widths = Some M ->
             maximum_from 0 widths = Z.max 0 M) /\
  (forall M, spec_maximum heights = Some M ->
             maximum_from 0 heights = Z.max 0 M) /\
  (forall n,
      next_multiple n 4 = Ok (round4 n) /\
      (n mod 4 = 0 -> round4 n = n) /\
      (n mod 4 <> 0 ->
       n < round4 n /\ round4 n mod 4 = 0 /\
       forall r, n < r -> r mod 4 = 0 -> round4 n <= r)) /\
  next_multiple 5 4 = Ok 8 /\ next_multiple 8 4 = Ok 8.
Proof.
  intros Hs widths heights.
  split; [eexists; apply (parse_sprites_spec _ _ Hs)|].
  split; [apply maximum_from_spec_maximum|].
  split; [apply maximum_from_spec_maximum|].
  split; [|split; reflexivity].
  intros n. split; [apply next_multiple_4|apply round4_spec].
Qed.

(** C5, as stated, fails when every trimmed size is negative: the only
    record here has width - pos_x = height - pos_y = -6, whose maximum
    rounds up to -4, but the parser returns 0 for both. *)
Lemma parse_sprites_negative_trim :
  sprites_of (findall negative_trim_root "SubTexture") =
    Ok [negative_trim_sprite] /\
  parse_sprites negative_trim_root = Ok ([negative_trim_sprite], 0, 0) /\
  spec_maximum (List.map trim_width [negative_trim_sprite]) = Some (-6) /\
  spec_maximum (List.map trim_height [negative_trim_sprite]) = Some (-6) /\
  next_multiple (-6) 4 = Ok (-4).
Proof. repeat split; vm_compute; reflexivity. Qed.

Lemma parse_sprites_maxima_witness :
  exists catalog, parse_sprites demo_root = Ok (catalog, 16, 20).
Proof.
  refine (proj1 (parse_sprites_maxima demo_root
    [Sprite.Build (Some "a"%string) 0 0 10 20 0 0 false;
     Sprite.Build (Some "b"%string) 10 0 4 4 0 0 true;
     Sprite.Build (Some "c"%string) 14 0 16 8 0 0 false] _)).
  vm_compute. reflexivity.
Defined.

(** ** De-duplication of a pair *)

Lemma Sprite_eq_init n1 n2 x y w h px py r1 r2 :
  Sprite.eq (Sprite.init n1 x y w h px py r1)
            (Sprite.init n2 x y w h px py r2) =
  Bool.eqb r1 r2 || ((w =? h) && (px =? py)).
Proof.
  destruct r1, r2; unfold Sprite.eq; cbn;
    rewrite ?Z.eqb_refl, ?andb_true_r, ?andb_true_l; try reflexivity.
  - rewrite (Z.eqb_sym h w), (Z.eqb_sym py px).
    destruct (w =? h), (px =? py); reflexivity.
  - rewrite (Z.eqb_sym h w), (Z.eqb_sym py px).
    destruct (w =? h), (px =? py); reflexivity.
Qed.

(** C4, as amended. Two descriptors with the same x, y, width, height,
    frameX and frameY, whatever their names, give a catalog of size 1 when
    their rotated flags agree, or when width = height and frameX = frameY;
    otherwise the exchange of the fields in the rotated record makes the two
    records differ and the catalog has size 2.  Record equality itself
    compares x, y, width, height, pos_x and pos_y only. *)
Theorem catalog_of_same_geometry_pair (xml_root : list Element)
    (e1 e2 : Element) (n1 n2 : option string) (x y w h px py : Z)
    (r1 r2 : bool) :
  findall xml_root "SubTexture" = [e1; e2] ->
  sprite_of_sub_texture e1 = Ok (Sprite.init n1 x y w h px py r1) ->
  sprite_of_sub_texture e2 = Ok (Sprite.init n2 x y w h px py r2) ->
  (exists catalog max_width max_height,
      parse_sprites xml_root = Ok (catalog, max_width, max_height) /\
      length catalog =
        (if Bool.eqb r1 r2 || ((w =? h) && (px =? py)) then 1%nat else 2%nat)) /\
  (forall s1 s2,
      Sprite.eq s1 s2 = true <->
      Sprite.x s1 = Sprite.x s2 /\ Sprite.y s1 = Sprite.y s2 /\
      Sprite.width s1 = Sprite.width s2 /\
      Sprite.height s1 = Sprite.height s2 /\
      Sprite.pos_x s1 = Sprite.pos_x s2 /\ Sprite.pos_y s1 = Sprite.pos_y s2).
Proof.
  intros Hfind H1 H2. split; [|apply Sprite_eq_iff].
  eexists _, _, _. split.
  - apply parse_sprites_spec. rewrite Hfind. cbn [sprites_of].
    rewrite H1, H2. reflexivity.
  - unfold spec_catalog. cbn [fold_left].
    unfold spec_catalog_add at 2. cbn [contains existsb app].
    unfold spec_catalog_add. cbn [contains existsb]. rewrite orb_false_r.
    rewrite Sprite_eq_sym, Sprite_eq_init.
    destruct (Bool.eqb r1 r2 || ((w =? h) && (px =? py))); reflexivity.
Qed.

(** C4, as stated, fails when the rotated flags differ: the two descriptors
    below agree on x, y, width, height, frameX and frameY, and the catalog
    has two entries. *)
Lemma rotated_pair_not_merged :
  parse_sprites rotated_pair_root =
  Ok ([Sprite.Build (Some "up"%string) 0 0 10 20 1 2 false;
       Sprite.Build (Some "side"%string) 0 0 20 10 2 1 true], 20, 20).
Proof. vm_compute. reflexivity. Qed.

Lemma catalog_of_same_geometry_pair_witness :
  exists catalog max_width max_height,
    parse_sprites named_pair_root = Ok (catalog, max_width, max_height) /\
    length catalog = 1%nat.
Proof.
  refine (proj1 (catalog_of_same_geometry_pair named_pair_root
    (sub_texture [("name", "idle0"); ("x", "0"); ("y", "0"); ("width", "10");
                  ("height", "20"); ("frameX", "1"); ("frameY", "2")]%string)
    (sub_texture [("name", "idle1"); ("x", "0"); ("y", "0"); ("width", "10");
                  ("height", "20"); ("frameX", "1"); ("frameY", "2")]%string)
    (Some "idle0"%string) (Some "idle1"%string) 0 0 10 20 1 2 false false
    _ _ _)); vm_compute; reflexivity.
Defined.

(** ** Catalog membership and lookup *)

Lemma contains_app l1 l2 s :
  contains (l1 ++ l2) s = contains l1 s || contains l2 s.
Proof. unfold contains. apply existsb_app. Qed.

Lemma contains_add_mono cat s s' :
  contains cat s = true -> contains (spec_catalog_add cat s') s = true.
Proof.
  intros H. unfold spec_catalog_add.
  destruct (contains cat s'); [exact H|].
  rewrite contains_app, H. reflexivity.
Qed.

Lemma contains_add_self cat s : contains (spec_catalog_add cat s) s = true.
Proof.
  unfold spec_catalog_add. destruct (contains cat s) eqn:H; [exact H|].
  rewrite contains_app. cbn [contains existsb].
  rewrite Sprite_eq_refl, orb_true_r. reflexivity.
Qed.

Lemma contains_fold_mono sprites :
  forall cat s,
    contains cat s = true ->
    contains (fold_left spec_catalog_add sprites cat) s = true.
Proof.
  induction sprites as [|s' l IH]; intros cat s H; cbn [fold_left];
    [exact H|].
  apply IH, contains_add_mono, H.
Qed.

Lemma contains_fold_In sprites :
  forall cat s,
    In s sprites ->
    contains (fold_left spec_catalog_add sprites cat) s = true.
Proof.
  induction sprites as [|s' l IH]; intros cat s Hin; [destruct Hin|].
  cbn [fold_left]. destruct Hin as [->|Hin].
  - apply contains_fold_mono, contains_add_self.
  - apply IH, Hin.
Qed.

(** [index] returns the first position holding an equal record. *)
Lemma index_spec l v i :
  index l v = Ok i ->
  exists c,
    l !! i = Some c /\ Sprite.eq c v = true /\
    forall j c', (j < i)%nat -> l !! j = Some c' -> Sprite.eq c' v = false.
Proof.
  revert i. induction l as [|e r IH]; intros i H; [discriminate|].
  cbn [index] in H. destruct (Sprite.eq e v) eqn:He.
  - injection H as <-. exists e. split; [reflexivity|]. split; [exact He|].
    intros j c' Hj. lia.
  - bind_ok H. injection H as <-.
    destruct (IH _ eq_refl) as (c & Hc & Hcv & Hfirst).
    exists c. split; [exact Hc|]. split; [exact Hcv|].
    intros [|j] c' Hj Hl; cbn in Hl.
    + injection Hl as <-. exact He.
    + apply (Hfirst j); [lia|exact Hl].
Qed.

Lemma index_of_contains l v :
  contains l v = true ->
  exists i, index l v = Ok i /\ (i < length l)%nat.
Proof.
  induction l as [|e r IH]; cbn [contains existsb index]; [discriminate|].
  rewrite (Sprite_eq_sym v e). destruct (Sprite.eq e v).
  - intros _. exists O. split; [reflexivity|simpl; lia].
  - cbn [orb]. intros H. destruct (IH H) as (i & Hi & Hlt).
    exists (S i). rewrite Hi. split; [reflexivity|simpl; lia].
Qed.

Lemma sprites_of_In sub_textures :
  forall sprites, sprites_of sub_textures = Ok sprites ->
  forall e, In e sub_textures ->
  exists s, sprite_of_sub_texture e = Ok s /\ In s sprites.
Proof.
  induction sub_textures as [|e0 rest IH]; intros sprites Hs e Hin;
    [destruct Hin|].
  cbn [sprites_of] in Hs. bind_ok Hs. injection Hs as <-.
  destruct Hin as [<-|Hin].
  - exists v. split; [exact E|left; reflexivity].
  - destruct (IH _ eq_refl e Hin) as (s & Hs & Hsin).
    exists s. split; [exact Hs|right; exact Hsin].
Qed.

Lemma findall_In xml_root t e :
  In e (findall xml_root t) <-> In e xml_root /\ tag e = t.
Proof.
  unfold findall. rewrite filter_In, String.eqb_eq. reflexivity.
Qed.

(** Every descriptor the parser accepted is found again in its catalog. *)
Lemma catalog_lookup xml_root catalog max_width max_height e :
  parse_sprites xml_root = Ok (catalog, max_width, max_height) ->
  In e (findall xml_root "SubTexture") ->
  exists s i c,
    sprite_of_sub_texture e = Ok s /\ index catalog s = Ok i /\
    (i < length catalog)%nat /\
    catalog !! i = Some c /\ Sprite.eq c s = true.
Proof.
  intros Hp Hin.
  destruct (parse_sprites_inv _ _ _ _ Hp) as (sprites & Hs & -> & _ & _).
  destruct (sprites_of_In _ _ Hs e Hin) as (s & Hes & Hsin).
  pose proof (contains_fold_In sprites [] s Hsin) as Hc.
  destruct (index_of_contains _ _ Hc) as (i & Hi & Hlt).
  destruct (index_spec _ _ _ Hi) as (c & Hc' & Heq & _).
  exists s, i, c. repeat split; assumption.
Qed.

Lemma update_xml_ok xml_root original new_sprite_list :
  (forall e, In e (findall xml_root "SubTexture") ->
     exists s i,
       sprite_of_sub_texture e = Ok s /\ index original s = Ok i /\
       (i < length new_sprite_list)%nat) ->
  exists xml_root',
    update_xml_with_new_sprites xml_root original new_sprite_list =
    Ok xml_root'.
Proof.
  induction xml_root as [|e rest IH]; intros Hall;
    [exists []; reflexivity|].
  cbn [update_xml_with_new_sprites].
  destruct IH as [rest' Hrest].
  { intros e' He'. apply Hall. apply findall_In in He' as [He' Ht].
    apply findall_In. split; [right; exact He'|exact Ht]. }
  rewrite Hrest.
  destruct (String.eqb (tag e) "SubTexture") eqn:Ht; cbn [Py.bind];
    [|eexists; reflexivity].
  destruct (Hall e) as (s & i & Hs & Hi & Hlt).
  { apply findall_In. split; [left; reflexivity|].
    apply String.eqb_eq, Ht. }
  unfold update_sub_texture. rewrite Hs. cbn [Py.bind]. rewrite Hi.
  cbn [Py.bind]. unfold getitem.
  destruct (lookup_lt_is_Some_2 new_sprite_list i Hlt) as [ns Hns].
  rewrite Hns. cbn [Py.bind]. eexists. reflexivity.
Qed.

(** C9. When the parser accepts a descriptor sequence, every descriptor's
    record, derived again, is equal to an entry of the parser's catalog, so
    [index] finds it; with a repacked list as long as the catalog, as the
    repacker's is, the rewriter raises no error. *)
Theorem catalog_lookup_succeeds (xml_root : list Element)
    (catalog : list Sprite.t) (max_width max_height : Z) :
  parse_sprites xml_root = Ok (catalog, max_width, max_height) ->
  (forall e, In e (findall xml_root "SubTexture") ->
     exists s i c,
       sprite_of_sub_texture e = Ok s /\ index catalog s = Ok i /\
       (i < length catalog)%nat /\
       catalog !! i = Some c /\ Sprite.eq c s = true) /\
  (forall new_sprite_list,
     length new_sprite_list = length catalog ->
     exists xml_root',
       update_xml_with_new_sprites xml_root catalog new_sprite_list =
       Ok xml_root') /\
  (forall src im new_sprite_list,
     create_new_spritesheet catalog max_width max_height src =
       Ok (im, new_sprite_list) ->
     exists xml_root',
       update_xml_with_new_sprites xml_root catalog new_sprite_list =
       Ok xml_root').
Proof.
  intros Hp.
  assert (Hlen : forall new_sprite_list,
             length new_sprite_list = length catalog ->
             exists xml_root',
               update_xml_with_new_sprites xml_root catalog new_sprite_list =
               Ok xml_root').
  { intros nl Hnl. apply update_xml_ok. intros e He.
    destruct (catalog_lookup _ _ _ _ e Hp He) as (s & i & c & Hs & Hi & Hlt & _).
    exists s, i. rewrite Hnl. repeat split; assumption. }
  split; [intros e He; apply (catalog_lookup _ _ _ _ e Hp He)|].
  split; [exact Hlen|].
  intros src im nl Hc. apply Hlen.
  unfold create_new_spritesheet in Hc. bind_ok Hc.
  rewrite repack_loop_spec in Hc. injection Hc as _ <-.
  cbn [app]. rewrite length_zip_with, spec_grid_length. lia.
Qed.

Lemma catalog_lookup_succeeds_witness :
  exists xml_root',
    update_xml_with_new_sprites demo_root demo_catalog demo_new_sprite_list =
    Ok xml_root'.
Proof.
  refine (proj1 (proj2 (catalog_lookup_succeeds demo_root demo_catalog
                          16 20 _)) demo_new_sprite_list _).
  - vm_compute. reflexivity.
  - reflexivity.
Defined.

(** ** Numerals: [int] reads back what [str] prints *)

Lemma digits_numeral d :
  forall acc prev,
    d <> Decimal.Nil \/ prev = true ->
    digits acc prev (numeral d) = Some (uint_value d acc).
Proof.
  unfold numeral.
  induction d as [|l IH|l IH|l IH|l IH|l IH|l IH|l IH|l IH|l IH|l IH];
    intros acc prev H;
    cbn [NilEmpty.string_of_uint list_ascii_of_string digits uint_value].
  1: { destruct H as [H| ->]; [congruence|reflexivity]. }
  all: apply IH; right; reflexivity.
Qed.

Lemma uint_value_acc d :
  forall acc, uint_value d (Zpos acc) = Zpos (Pos.of_uint_acc d acc).
Proof.
  induction d; intros acc; cbn [uint_value Pos.of_uint_acc];
    [reflexivity|..]; rewrite <- IHd; f_equal; lia.
Qed.

Lemma uint_value_0 d : uint_value d 0 = Z.of_N (Pos.of_uint d).
Proof.
  induction d; cbn [uint_value Pos.of_uint]; [reflexivity|exact IHd|..];
    cbn [Z.of_N]; rewrite <- uint_value_acc; reflexivity.
Qed.

Lemma numeral_nonspace d : Forall (fun c => is_space c = false) (numeral d).
Proof.
  unfold numeral. induction d;
    cbn [NilEmpty.string_of_uint list_ascii_of_string];
    constructor; (reflexivity || assumption).
Qed.

Lemma lstrip_head l :
  match l with [] => True | c :: _ => is_space c = false end -> lstrip l = l.
Proof. destruct l as [|c r]; [reflexivity|]. cbn [lstrip]. intros ->. reflexivity. Qed.

Lemma strip_nonspace l :
  Forall (fun c => is_space c = false) l -> strip l = l.
Proof.
  intros Hl. unfold strip.
  rewrite (lstrip_head l) by (destruct Hl; [exact I|assumption]).
  rewrite lstrip_head, rev_involutive; [reflexivity|].
  apply Forall_rev in Hl. destruct Hl; [exact I|assumption].
Qed.

Lemma int_of_str_str z : int_of_str (str z) = Ok z.
Proof.
  destruct z as [|p|p]; [reflexivity| |].
  - unfold str, int_of_str. cbn [Z.to_int NilZero.string_of_int].
    pose proof (Unsigned.to_uint_nonnil p) as Hnil.
    assert (Hs : list_ascii_of_string (NilZero.string_of_uint (Pos.to_uint p)) =
                 numeral (Pos.to_uint p)).
    { unfold numeral, NilZero.string_of_uint.
      destruct (Pos.to_uint p); [congruence|reflexivity..]. }
    rewrite Hs, strip_nonspace by apply numeral_nonspace.
    pose proof (digits_numeral (Pos.to_uint p) 0 false (or_introl Hnil)) as Hd.
    rewrite uint_value_0, Unsigned.of_to in Hd. cbn [Z.of_N] in Hd.
    destruct (numeral (Pos.to_uint p)) as [|c r] eqn:Hn.
    { unfold numeral in Hn. destruct (Pos.to_uint p); [congruence|discriminate..]. }
    assert (Hc : Ascii.eqb c "-" = false /\ Ascii.eqb c "+" = false).
    { unfold numeral in Hn.
      destruct (Pos.to_uint p); [congruence|..];
        injection Hn as <- _; split; reflexivity. }
    destruct Hc as [-> ->]. rewrite Hd. reflexivity.
  - unfold str, int_of_str. cbn [Z.to_int NilZero.string_of_int list_ascii_of_string].
    pose proof (Unsigned.to_uint_nonnil p) as Hnil.
    assert (Hs : list_ascii_of_string (NilZero.string_of_uint (Pos.to_uint p)) =
                 numeral (Pos.to_uint p)).
    { unfold numeral, NilZero.string_of_uint.
      destruct (Pos.to_uint p); [congruence|reflexivity..]. }
    rewrite Hs, strip_nonspace
      by (constructor; [reflexivity|apply numeral_nonspace]).
    change (Ascii.eqb "-" "-") with true. cbn iota.
    rewrite (digits_numeral (Pos.to_uint p) 0 false (or_introl Hnil)).
    rewrite uint_value_0, Unsigned.of_to. reflexivity.
Qed.

(** ** The rewritten attributes *)

Lemma del_if_present_delete (a : gmap string string) (attr : string) :
  del_if_present a attr = delete attr a.
Proof.
  unfold del_if_present. case_bool_decide as Hk; [reflexivity|].
  symmetry. apply delete_id. destruct (a !! attr) eqn:E; [|reflexivity].
  exfalso. apply Hk. eexists. reflexivity.
Qed.

Lemma rewritten_attrib_lookup (a : gmap string string) (ns : Sprite.t) :
  let a' := rewritten_attrib a ns in
  a' !! "x"%string = Some (str (Sprite.x ns)) /\
  a' !! "y"%string = Some (str (Sprite.y ns)) /\
  a' !! "width"%string = Some (str (Sprite.width ns)) /\
  a' !! "height"%string = Some (str (Sprite.height ns)) /\
  (forall k, In k obsolete_attributes -> a' !! k = None) /\
  (forall k, ~ In k (["x"; "y"; "width"; "height"]%string
                       ++ obsolete_attributes) ->
             a' !! k = a !! k).
Proof.
  unfold rewritten_attrib, obsolete_attributes. cbn [fold_left app].
  rewrite !del_if_present_delete.
  repeat split.
  - rewrite !lookup_delete_ne, !lookup_insert_ne, lookup_insert_eq by done.
    reflexivity.
  - rewrite !lookup_delete_ne, !lookup_insert_ne, lookup_insert_eq by done.
    reflexivity.
  - rewrite !lookup_delete_ne, !lookup_insert_ne, lookup_insert_eq by done.
    reflexivity.
  - rewrite !lookup_delete_ne, lookup_insert_eq by done.
    reflexivity.
  - intros k Hk. cbn [In] in Hk.
    destruct Hk as [<-|[<-|[<-|[<-|[<-|[]]]]]].
    + rewrite !lookup_delete_ne, lookup_delete_eq by done. reflexivity.
    + rewrite !lookup_delete_ne, lookup_delete_eq by done. reflexivity.
    + rewrite !lookup_delete_ne, lookup_delete_eq by done. reflexivity.
    + rewrite !lookup_delete_ne, lookup_delete_eq by done. reflexivity.
    + rewrite lookup_delete_eq. reflexivity.
  - intros k Hk. cbn [In] in Hk.
    rewrite !lookup_delete_ne, !lookup_insert_ne by (intros <-; intuition).
    reflexivity.
Qed.

Lemma update_sub_texture_inv e original new_sprite_list e' :
  update_sub_texture e original new_sprite_list = Ok e' ->
  exists s i ns,
    sprite_of_sub_texture e = Ok s /\ index original s = Ok i /\
    new_sprite_list !! i = Some ns /\
    e' = {| tag := tag e; attrib := rewritten_attrib (attrib e) ns |}.
Proof.
  unfold update_sub_texture, getitem. intros H. bind_ok H.
  destruct (new_sprite_list !! v0) as [ns|] eqn:Hns; [|discriminate].
  injection E1 as <-. injection H as <-. exists v, v0, ns.
  repeat split; reflexivity || assumption.
Qed.

(** C8. When the rewriter returns, every element keeps its tag, every
    element other than a SubTexture is unchanged, and every SubTexture
    carries as x, y, width and height the decimal numerals of the repacked
    record found at the index of the first catalog entry equal to the
    element's record, and carries none of frameX, frameY, frameWidth,
    frameHeight and rotated; its other attributes are unchanged.  The
    numeral [str z] is read back by [int] as [z]. *)
Theorem update_xml_attributes (xml_root : list Element)
    (original new_sprite_list : list Sprite.t) (xml_root' : list Element) :
  update_xml_with_new_sprites xml_root original new_sprite_list =
    Ok xml_root' ->
  Forall2 (rewritten original new_sprite_list) xml_root xml_root' /\
  (forall z, int_of_str (str z) = Ok z).
Proof.
  intros H. split; [|apply int_of_str_str].
  revert xml_root' H. induction xml_root as [|e rest IH]; intros root' H.
  - injection H as <-. constructor.
  - cbn [update_xml_with_new_sprites] in H.
    destruct (String.eqb (tag e) "SubTexture") eqn:Ht.
    + bind_ok H. injection H as <-.
      constructor; [|apply IH; reflexivity].
      destruct (update_sub_texture_inv _ _ _ _ E)
        as (s & i & ns & Hs & Hi & Hns & ->).
      destruct (index_spec _ _ _ Hi) as (c & Hc & Heq & Hfirst).
      pose proof (rewritten_attrib_lookup (attrib e) ns)
        as (Hx & Hy & Hw & Hh & Hobs & Hother).
      split; [reflexivity|]. split.
      * intros Hne. apply String.eqb_eq in Ht. contradiction.
      * intros _. exists s, i, c, ns. cbn [attrib].
        repeat split; try assumption;
          apply Hobs; cbn; tauto.
    + cbn [Py.bind] in H. bind_ok H. injection H as <-.
      constructor; [|apply IH; reflexivity].
      split; [reflexivity|]. split; [reflexivity|].
      intros Heq. apply String.eqb_neq in Ht. contradiction.
Qed.

Lemma update_xml_attributes_witness :
  Forall2 (rewritten demo_catalog demo_new_sprite_list) demo_root demo_root'.
Proof.
  refine (proj1 (update_xml_attributes demo_root demo_catalog
                   demo_new_sprite_list demo_root' _)).
  vm_compute. reflexivity.
Defined.

(** ** The whole run *)

(** A run fails only where the parser or the repacker fails: once both
    return, the rewriter returns too, and the run returns the repacker's
    image. *)
Lemma generate_new_spritesheet_ok src xml_root catalog max_width max_height
    im new_sprite_list :
  parse_sprites xml_root = Ok (catalog, max_width, max_height) ->
  create_new_spritesheet catalog max_width max_height src =
    Ok (im, new_sprite_list) ->
  exists xml_root',
    update_xml_with_new_sprites xml_root catalog new_sprite_list =
      Ok xml_root' /\
    generate_new_spritesheet src xml_root = Ok (im, xml_root') /\
    length xml_root' = length xml_root.
Proof.
  intros Hp Hc. unfold generate_new_spritesheet. rewrite Hp. cbn [Py.bind].
  rewrite Hc. cbn [Py.bind].
  destruct (create_new_spritesheet_inv _ _ _ _ _ _ Hc)
    as (side & Hside & _ & Hnl).
  destruct (update_xml_ok xml_root catalog new_sprite_list)
    as [root' Hroot'].
  { intros e He.
    destruct (catalog_lookup _ _ _ _ e Hp He)
      as (s & i & c & Hs & Hi & Hlt & _).
    exists s, i. rewrite Hnl, length_zip_with, spec_grid_length.
    repeat split; (assumption || lia). }
  rewrite Hroot'. cbn [Py.bind]. exists root'.
  split; [reflexivity|]. split; [reflexivity|].
  clear -Hroot'. revert root' Hroot'.
  induction xml_root as [|e rest IH]; intros root' H.
  - injection H as <-. reflexivity.
  - cbn [update_xml_with_new_sprites] in H. bind_ok H. injection H as <-.
    cbn [length]. rewrite (IH _ eq_refl). reflexivity.
Qed.

Example demo_generate :
  generate_new_spritesheet (Image.opened (64, 64)) demo_root =
  Ok (paste_all (Image.new "RGBA" (32, 32))
        [(Image.crop (Image.opened (64, 64)) (0, 0, 10, 20), (0, 0));
         (Image.transpose (Image.crop (Image.opened (64, 64)) (10, 0, 14, 4))
            Image.ROTATE_90, (16, 0));
         (Image.crop (Image.opened (64, 64)) (14, 0, 30, 8), (0, 20))],
      demo_root').
Proof. vm_compute. reflexivity. Qed.

(** ** The theorems at the three-sprite example *)

Lemma repack_records_witness :
  exists side,
    new_dimensions demo_catalog 16 20 = Ok side /\
    Image.size demo_new_image = (side, side) /\
    length demo_new_sprite_list = length demo_catalog /\
    demo_new_sprite_list =
      zip_with (spec_record 16 20) demo_catalog
        (spec_grid side 16 20 0 0 (length demo_catalog)) /\
    Forall (fun s => Sprite.width s = 16 /\ Sprite.height s = 20 /\
                     Sprite.pos_x s = 0 /\ Sprite.pos_y s = 0 /\
                     Sprite.rotated s = false) demo_new_sprite_list.
Proof.
  apply (repack_records demo_catalog 16 20 demo_image demo_new_image
           demo_new_sprite_list).
  vm_compute. reflexivity.
Defined.

Lemma repack_pastes_witness :
  exists side,
    new_dimensions demo_catalog 16 20 = Ok side /\
    Image.canvas demo_new_image = Image.new "RGBA" (side, side) /\
    Image.pastes demo_new_image =
      [(Image.crop demo_image (0, 0, 10, 20), (0, 0));
       (Image.transpose (Image.crop demo_image (10, 0, 14, 4))
          Image.ROTATE_90, (16, 0));
       (Image.crop demo_image (14, 0, 30, 8), (0, 20))] /\
    List.map (fun s => (Sprite.x s, Sprite.y s)) demo_new_sprite_list =
      [(0, 0); (16, 0); (0, 20)].
Proof.
  destruct (repack_pastes demo_catalog 16 20 demo_image demo_new_image
              demo_new_sprite_list)
    as (side & Hside & Hcanvas & _ & _).
  - vm_compute. reflexivity.
  - exists side. split; [exact Hside|]. split; [exact Hcanvas|].
    split; reflexivity.
Defined.

Lemma repack_names_witness :
  length demo_new_sprite_list = length demo_catalog /\
  List.map Sprite.name demo_new_sprite_list =
    List.map Sprite.name demo_catalog.
Proof.
  destruct (repack_names demo_catalog 16 20 demo_image demo_new_image
              demo_new_sprite_list)
    as (Hlen & Hnames & _).
  - vm_compute. reflexivity.
  - split; [exact Hlen|exact Hnames].
Defined.

(** * Further properties of the code *)

(** ** Record equality and the constructor *)

(** X1. [__eq__] is an equivalence relation on records, and it does not
    look at the name or at the rotated flag. *)
Theorem Sprite_eq_equivalence :
  (forall s, Sprite.eq s s = true) /\
  (forall s1 s2, Sprite.eq s1 s2 = Sprite.eq s2 s1) /\
  (forall s1 s2 s3,
      Sprite.eq s1 s2 = true -> Sprite.eq s2 s3 = true ->
      Sprite.eq s1 s3 = true) /\
  (forall s n r,
      Sprite.eq s
        (Sprite.Build n (Sprite.x s) (Sprite.y s) (Sprite.width s)
           (Sprite.height s) (Sprite.pos_x s) (Sprite.pos_y s) r) = true).
Proof.
  split; [apply Sprite_eq_refl|]. split; [apply Sprite_eq_sym|].
  split; [apply Sprite_eq_trans|].
  intros s n r. apply Sprite_eq_iff. repeat split.
Qed.

(** X2. The exchange done by [__post_init__] undoes itself: building a
    record again from the fields of a built record gives back the raw
    values. *)
Theorem Sprite_init_involutive (n : option string) (x y w h px py : Z)
    (r : bool) :
  let s := Sprite.init n x y w h px py r in
  Sprite.init (Sprite.name s) (Sprite.x s) (Sprite.y s) (Sprite.width s)
    (Sprite.height s) (Sprite.pos_x s) (Sprite.pos_y s) (Sprite.rotated s) =
  Sprite.Build n x y w h px py r.
Proof. destruct r; reflexivity. Qed.

(** ** Size rounding *)

(** X3. [next_multiple] raises ZeroDivisionError exactly for the multiple
    0.  Otherwise its result is a multiple of the requested number that is
    less than one multiple away from the input, upwards for a positive and
    downwards for a negative multiple, and rounding the result again changes
    nothing. *)
Theorem next_multiple_characterization (number multiple_requested : Z) :
  match next_multiple number multiple_requested with
  | Ok r =>
      multiple_requested <> 0 /\
      r mod multiple_requested = 0 /\
      (0 < multiple_requested ->
       number <= r < number + multiple_requested) /\
      (multiple_requested < 0 ->
       number + multiple_requested < r <= number) /\
      next_multiple r multiple_requested = Ok r
  | Raise e => multiple_requested = 0 /\ e = ZeroDivisionError
  end.
Proof.
  unfold next_multiple.
  destruct (Z.eqb_spec multiple_requested 0) as [->|Hm]; [split; reflexivity|].
  set (m := multiple_requested) in *.
  pose proof (Z.div_mod number m Hm) as Hdm.
  assert (Hmul : forall r q, r = q * m -> r mod m = 0)
    by (intros r q ->; apply Z.mod_mul; exact Hm).
  destruct (Z.eqb_spec (number mod m) 0) as [H0|H0]; cbn [negb].
  - split; [exact Hm|]. split; [exact H0|].
    split; [lia|]. split; [lia|].
    destruct (Z.eqb_spec m 0); [contradiction|].
    rewrite H0. reflexivity.
  - assert (Hr : (number + (m - number mod m)) mod m = 0)
      by (apply (Hmul _ (number / m + 1)); lia).
    split; [exact Hm|]. split; [exact Hr|].
    split; [|split].
    + intros Hpos. pose proof (Z.mod_pos_bound number m Hpos). lia.
    + intros Hneg. pose proof (Z.mod_neg_bound number m Hneg). lia.
    + destruct (Z.eqb_spec m 0); [contradiction|].
      rewrite Hr. reflexivity.
Qed.

(** X4. [next_power_of_two] always returns a power of two that is not
    below its input; for an input of at least one the result is less than
    twice the input, and a power of two is returned unchanged. *)
Theorem next_power_of_two_bounds :
  (forall n, exists k, 0 <= k /\ next_power_of_two n = 2 ^ k) /\
  (forall n, n <= next_power_of_two n) /\
  (forall n, 1 <= n -> next_power_of_two n < 2 * n) /\
  (forall k, 0 <= k -> next_power_of_two (2 ^ k) = 2 ^ k).
Proof.
  assert (Hpow : forall n, exists k, 0 <= k /\ next_power_of_two n = 2 ^ k).
  { intros n. unfold next_power_of_two.
    destruct (n =? 0); [exists 0; split; [lia|reflexivity]|].
    exists (bit_length (n - 1)). split; [|reflexivity].
    destruct (n - 1); cbn [bit_length]; lia. }
  assert (Hge : forall n, n <= next_power_of_two n).
  { intros n. destruct (Z.leb_spec 1 n) as [Hn|Hn].
    - destruct (next_power_of_two_spec n Hn) as (k & _ & -> & Hle & _).
      exact Hle.
    - destruct (Hpow n) as (k & Hk & ->).
      pose proof (Z.pow_pos_nonneg 2 k ltac:(lia) Hk). lia. }
  split; [exact Hpow|]. split; [exact Hge|]. split.
  - intros n Hn. unfold next_power_of_two.
    destruct (Z.eqb_spec n 0); [lia|].
    destruct (n - 1) as [|p|p] eqn:Hp; try lia; cbn [bit_length].
    + simpl. lia.
    + pose proof (size_bounds p) as [Hlo _].
      replace (Zpos (Pos.size p)) with ((Zpos (Pos.size p) - 1) + 1) by lia.
      rewrite Z.pow_add_r by lia. lia.
  - intros k Hk.
    assert (H1 : 1 <= 2 ^ k) by (pose proof (Z.pow_pos_nonneg 2 k); lia).
    destruct (next_power_of_two_spec _ H1) as (j & Hj & Heq & Hle & Hmin).
    specialize (Hmin k Hk ltac:(lia)). lia.
Qed.

(** X5. For a negative input [next_power_of_two] looks at the bits of the
    absolute value: the result is that of 2 - n, hence at least 2 and more
    than the absolute value, although 1 is a power of two above every
    negative number. *)
Theorem next_power_of_two_negative (n : Z) :
  n < 0 ->
  next_power_of_two n = next_power_of_two (2 - n) /\
  2 <= next_power_of_two n /\ - n < next_power_of_two n.
Proof.
  intros Hn.
  assert (Heq : next_power_of_two n = next_power_of_two (2 - n)).
  { unfold next_power_of_two.
    destruct (Z.eqb_spec n 0); [lia|]. destruct (Z.eqb_spec (2 - n) 0); [lia|].
    f_equal. replace (2 - n - 1) with (- (n - 1)) by lia.
    destruct (n - 1); reflexivity. }
  split; [exact Heq|].
  destruct (next_power_of_two_spec (2 - n) ltac:(lia)) as (k & _ & Hk & Hle & _).
  rewrite Heq, Hk. lia.
Qed.

Lemma next_power_of_two_negative_witness :
  next_power_of_two (-3) = next_power_of_two 5 /\
  2 <= next_power_of_two (-3) /\ - (-3) < next_power_of_two (-3).
Proof. apply (next_power_of_two_negative (-3)). lia. Defined.

(** ** The catalog *)

Lemma contains_false l s :
  contains l s = false <-> forall a, In a l -> Sprite.eq s a = false.
Proof.
  unfold contains. induction l as [|e r IH]; cbn [existsb In].
  - split; [intros _ a []|reflexivity].
  - rewrite orb_false_iff, IH. split.
    + intros [He Hr] a [<-|Ha]; [exact He|apply Hr, Ha].
    + intros H. split; [apply H; left; reflexivity|].
      intros a Ha. apply H. right. exact Ha.
Qed.

Lemma pairwise_distinct_snoc l s :
  pairwise_distinct l -> contains l s = false ->
  pairwise_distinct (l ++ [s]).
Proof.
  intros Hl Hs i j a b Hi Hj Hij.
  rewrite contains_false in Hs.
  destruct (lookup_app_Some l [s] i a) as [Hia _].
  destruct (lookup_app_Some l [s] j b) as [Hjb _].
  destruct (Hia Hi) as [Ha|[Hlen Ha]], (Hjb Hj) as [Hb|[Hlen' Hb]].
  - exact (Hl i j a b Ha Hb Hij).
  - apply list_lookup_singleton_Some in Hb as [_ <-].
    rewrite Sprite_eq_sym. apply Hs.
    apply list_elem_of_In, list_elem_of_lookup. eauto.
  - apply list_lookup_singleton_Some in Ha as [_ <-].
    apply Hs. apply list_elem_of_In, list_elem_of_lookup. eauto.
  - apply list_lookup_singleton_Some in Ha as [Ha _].
    apply list_lookup_singleton_Some in Hb as [Hb _]. lia.
Qed.

Lemma catalog_fold_invariants sprites :
  forall cat,
    pairwise_distinct cat ->
    exists added,
      fold_left spec_catalog_add sprites cat = cat ++ added /\
      sublist added sprites /\
      pairwise_distinct (cat ++ added).
Proof.
  induction sprites as [|s l IH]; intros cat Hcat; cbn [fold_left].
  - exists []. rewrite app_nil_r. repeat split; [constructor|exact Hcat].
  - unfold spec_catalog_add at 2.
    destruct (contains cat s) eqn:Hc.
    + destruct (IH cat Hcat) as (added & Heq & Hsub & Hd).
      exists added. split; [exact Heq|]. split; [|exact Hd].
      apply sublist_cons, Hsub.
    + destruct (IH (cat ++ [s]) (pairwise_distinct_snoc _ _ Hcat Hc))
        as (added & Heq & Hsub & Hd).
      exists (s :: added). rewrite Heq, <- app_assoc. cbn [app].
      split; [reflexivity|]. split; [apply sublist_skip, Hsub|].
      rewrite <- app_assoc in Hd. exact Hd.
Qed.

Lemma contains_snoc l s v :
  contains (l ++ [s]) v = contains l v || Sprite.eq v s.
Proof.
  unfold contains. rewrite existsb_app. cbn [existsb].
  rewrite orb_false_r. reflexivity.
Qed.

Lemma contains_eq_trans l s v :
  contains l s = true -> Sprite.eq v s = true -> contains l v = true.
Proof.
  unfold contains. rewrite !existsb_exists.
  intros (c & Hin & Hc) Hv. exists c. split; [exact Hin|].
  exact (Sprite_eq_trans _ _ _ Hv Hc).
Qed.

(** Adding in turn unless an equal entry is present keeps exactly the
    records that are not equal to an earlier one. *)
Lemma catalog_fold_first_appearances sprites cat seen :
  (forall v, contains cat v = contains seen v) ->
  fold_left spec_catalog_add sprites cat =
  cat ++ first_appearances seen sprites.
Proof.
  revert cat seen. induction sprites as [|s rest IH]; intros cat seen Hcs.
  - simpl. rewrite app_nil_r. reflexivity.
  - cbn [fold_left first_appearances]. unfold spec_catalog_add at 2.
    rewrite <- (Hcs s).
    destruct (contains cat s) eqn:Hc.
    + apply IH. intros v. rewrite contains_snoc, <- Hcs.
      destruct (Sprite.eq v s) eqn:Hv; [|rewrite orb_false_r; reflexivity].
      rewrite (contains_eq_trans _ _ _ Hc Hv). reflexivity.
    + rewrite (IH (cat ++ [s]) (seen ++ [s])).
      * rewrite <- app_assoc. reflexivity.
      * intros v. rewrite !contains_snoc, Hcs. reflexivity.
Qed.

Lemma spec_catalog_first_appearances sprites :
  spec_catalog sprites = first_appearances [] sprites.
Proof.
  unfold spec_catalog.
  rewrite (catalog_fold_first_appearances sprites [] []); reflexivity.
Qed.

(** What the parser's result is made of. *)
Lemma parse_sprites_catalog xml_root catalog max_width max_height :
  parse_sprites xml_root = Ok (catalog, max_width, max_height) ->
  exists sprites,
    sprites_of (findall xml_root "SubTexture") = Ok sprites /\
    catalog = spec_catalog sprites /\
    sublist catalog sprites /\
    pairwise_distinct catalog /\
    (forall s, In s sprites -> contains catalog s = true) /\
    max_width = round4 (maximum_from 0 (List.map trim_width sprites)) /\
    max_height = round4 (maximum_from 0 (List.map trim_height sprites)).
Proof.
  intros Hp.
  destruct (parse_sprites_inv _ _ _ _ Hp) as (sprites & Hs & -> & -> & ->).
  exists sprites. split; [exact Hs|]. split; [reflexivity|].
  destruct (catalog_fold_invariants sprites [])
    as (added & Heq & Hsub & Hd).
  { intros i j a b Hi. rewrite lookup_nil in Hi. discriminate. }
  cbn [app] in Heq, Hd. unfold spec_catalog. rewrite Heq.
  split; [exact Hsub|]. split; [exact Hd|].
  split; [|split; reflexivity].
  intros s Hin. rewrite <- Heq. apply contains_fold_In, Hin.
Qed.

(** X6. The parser's catalog is the list of the records built from the
    descriptors that are not equal to an earlier record, in the order they
    were built: it is what adding each record in turn unless an equal one is
    already present gives, a subsequence of the records, no two of its
    entries are equal records, and every record built is equal to one of
    its entries. *)
Theorem catalog_invariants (xml_root : list Element)
    (catalog : list Sprite.t) (max_width max_height : Z) :
  parse_sprites xml_root = Ok (catalog, max_width, max_height) ->
  exists sprites,
    sprites_of (findall xml_root "SubTexture") = Ok sprites /\
    catalog = first_appearances [] sprites /\
    catalog = spec_catalog sprites /\
    sublist catalog sprites /\
    (length catalog <= length sprites)%nat /\
    pairwise_distinct catalog /\
    (forall s, In s sprites -> contains catalog s = true).
Proof.
  intros Hp.
  destruct (parse_sprites_catalog _ _ _ _ Hp)
    as (sprites & Hs & Hcat & Hsub & Hd & Hcont & _).
  exists sprites. split; [exact Hs|].
  split; [rewrite Hcat; apply spec_catalog_first_appearances|].
  split; [exact Hcat|]. split; [exact Hsub|].
  split; [apply sublist_length, Hsub|]. split; [exact Hd|exact Hcont].
Qed.

Lemma catalog_invariants_witness :
  exists sprites,
    sprites_of (findall demo_root "SubTexture") = Ok sprites /\
    demo_catalog = first_appearances [] sprites /\
    demo_catalog = spec_catalog sprites /\
    sublist demo_catalog sprites /\
    (length demo_catalog <= length sprites)%nat /\
    pairwise_distinct demo_catalog /\
    (forall s, In s sprites -> contains demo_catalog s = true).
Proof.
  apply (catalog_invariants demo_root demo_catalog 16 20).
  vm_compute. reflexivity.
Defined.

(** ** The cell size *)

Lemma maximum_from_bounds floor l :
  floor <= maximum_from floor l /\
  (forall v, In v l -> v <= maximum_from floor l) /\
  (maximum_from floor l = floor \/ In (maximum_from floor l) l).
Proof.
  unfold maximum_from. induction l as [|a r (Hf & Hall & Hex)]; cbn [fold_right In].
  - split; [lia|]. split; [intros v []|left; reflexivity].
  - split; [lia|]. split.
    + intros v [<-|Hv]; [lia|]. specialize (Hall v Hv). lia.
    + destruct (Z.max_spec a (fold_right Z.max floor r)) as [[_ ->]|[_ ->]].
      * destruct Hex as [->|Hex]; [left; reflexivity|right; right; exact Hex].
      * right. left. reflexivity.
Qed.

Lemma round4_bounds n : n <= round4 n < n + 4 /\ round4 n mod 4 = 0.
Proof.
  pose proof (round4_spec n) as [H0 H1].
  pose proof (Z.mod_pos_bound n 4 ltac:(lia)) as Hb.
  destruct (Z.eq_dec (n mod 4) 0) as [Hz|Hnz].
  - rewrite (H0 Hz). split; [lia|exact Hz].
  - destruct (H1 Hnz) as (Hlt & Hm & _). split; [|exact Hm].
    unfold round4 in *. destruct (Z.eqb_spec (n mod 4) 0); lia.
Qed.

Lemma parse_sprites_nonneg xml_root catalog max_width max_height :
  parse_sprites xml_root = Ok (catalog, max_width, max_height) ->
  0 <= max_width /\ 0 <= max_height /\
  max_width mod 4 = 0 /\ max_height mod 4 = 0.
Proof.
  intros Hp.
  destruct (parse_sprites_inv _ _ _ _ Hp) as (sprites & _ & _ & -> & ->).
  pose proof (maximum_from_bounds 0 (List.map trim_width sprites)) as (Hw & _).
  pose proof (maximum_from_bounds 0 (List.map trim_height sprites)) as (Hh & _).
  pose proof (round4_bounds (maximum_from 0 (List.map trim_width sprites))).
  pose proof (round4_bounds (maximum_from 0 (List.map trim_height sprites))).
  repeat split; lia || tauto.
Qed.

(** Every catalog entry fits the cell, and the cell is no larger than
    needed. *)
Lemma parse_sprites_fit xml_root catalog max_width max_height :
  parse_sprites xml_root = Ok (catalog, max_width, max_height) ->
  (forall s, In s catalog ->
     trim_width s <= max_width /\ trim_height s <= max_height) /\
  (max_width = 0 \/
   exists s, In s catalog /\ max_width < trim_width s + 4) /\
  (max_height = 0 \/
   exists s, In s catalog /\ max_height < trim_height s + 4).
Proof.
  intros Hp.
  destruct (parse_sprites_catalog _ _ _ _ Hp)
    as (sprites & Hs & _ & Hsub & _ & Hcont & -> & ->).
  pose proof (maximum_from_bounds 0 (List.map trim_width sprites))
    as (Hw0 & Hwall & Hwex).
  pose proof (maximum_from_bounds 0 (List.map trim_height sprites))
    as (Hh0 & Hhall & Hhex).
  pose proof (round4_bounds (maximum_from 0 (List.map trim_width sprites)))
    as (Hrw & Hrw4).
  pose proof (round4_bounds (maximum_from 0 (List.map trim_height sprites)))
    as (Hrh & Hrh4).
  assert (Hin : forall s, In s catalog -> In s sprites).
  { intros s Hin. apply list_elem_of_In.
    eapply sublist_subseteq; [exact Hsub|]. apply list_elem_of_In, Hin. }
  assert (Hrep : forall s, In s sprites ->
            exists c, In c catalog /\ trim_width c = trim_width s /\
                      trim_height c = trim_height s).
  { intros s Hsin. specialize (Hcont s Hsin). unfold contains in Hcont.
    apply existsb_exists in Hcont as (c & Hc & Heq).
    apply Sprite_eq_iff in Heq as (_ & _ & Hw & Hh & Hpx & Hpy).
    exists c. unfold trim_width, trim_height.
    split; [exact Hc|]. rewrite Hw, Hh, Hpx, Hpy. split; reflexivity. }
  split; [|split].
  - intros s Hsc. apply Hin in Hsc. split.
    + specialize (Hwall (trim_width s) (in_map _ _ _ Hsc)). lia.
    + specialize (Hhall (trim_height s) (in_map _ _ _ Hsc)). lia.
  - destruct Hwex as [Hz|Hex]; [left; rewrite Hz; reflexivity|right].
    apply in_map_iff in Hex as (s & Hts & Hsin).
    destruct (Hrep s Hsin) as (c & Hc & Hcw & _).
    exists c. split; [exact Hc|]. lia.
  - destruct Hhex as [Hz|Hex]; [left; rewrite Hz; reflexivity|right].
    apply in_map_iff in Hex as (s & Hts & Hsin).
    destruct (Hrep s Hsin) as (c & Hc & _ & Hch).
    exists c. split; [exact Hc|]. lia.
Qed.

(** X7. The cell size the parser returns is non-negative and a multiple of
    4 in both directions; the trimmed size width - pos_x by height - pos_y
    of every catalog entry fits it; and unless it is 0 it exceeds the
    trimmed size of some catalog entry by less than 4. *)
Theorem parse_sprites_cell_bounds (xml_root : list Element)
    (catalog : list Sprite.t) (max_width max_height : Z) :
  parse_sprites xml_root = Ok (catalog, max_width, max_height) ->
  0 <= max_width /\ 0 <= max_height /\
  max_width mod 4 = 0 /\ max_height mod 4 = 0 /\
  (forall s, In s catalog ->
     Sprite.width s - Sprite.pos_x s <= max_width /\
     Sprite.height s - Sprite.pos_y s <= max_height) /\
  (max_width = 0 \/
   exists s, In s catalog /\ max_width < Sprite.width s - Sprite.pos_x s + 4) /\
  (max_height = 0 \/
   exists s, In s catalog /\
             max_height < Sprite.height s - Sprite.pos_y s + 4).
Proof.
  intros Hp.
  destruct (parse_sprites_nonneg _ _ _ _ Hp) as (Hw & Hh & Hw4 & Hh4).
  destruct (parse_sprites_fit _ _ _ _ Hp) as (Hfit & Htw & Hth).
  split; [exact Hw|]. split; [exact Hh|]. split; [exact Hw4|].
  split; [exact Hh4|]. split; [exact Hfit|]. split; [exact Htw|exact Hth].
Qed.

Lemma parse_sprites_cell_bounds_witness :
  0 <= 16 /\ 0 <= 20 /\ 16 mod 4 = 0 /\ 20 mod 4 = 0 /\
  (forall s, In s demo_catalog ->
     Sprite.width s - Sprite.pos_x s <= 16 /\
     Sprite.height s - Sprite.pos_y s <= 20) /\
  (16 = 0 \/
   exists s, In s demo_catalog /\ 16 < Sprite.width s - Sprite.pos_x s + 4) /\
  (20 = 0 \/
   exists s, In s demo_catalog /\ 20 < Sprite.height s - Sprite.pos_y s + 4).
Proof.
  apply (parse_sprites_cell_bounds demo_root demo_catalog 16 20).
  vm_compute. reflexivity.
Defined.

(** ** The grid in closed form *)

Lemma div_mod_index k r c :
  0 < k -> 0 <= c < k -> (r * k + c) / k = r /\ (r * k + c) mod k = c.
Proof.
  intros Hk Hc. split.
  - symmetry. apply (Z.div_unique _ _ _ c); lia.
  - symmetry. apply (Z.mod_unique _ _ r); lia.
Qed.

(** The grid from the cursor at column [c] of row [r]. *)
Lemma spec_grid_from side cw ch :
  0 < cw <= side ->
  let k := side / cw in
  forall n cx cy c r j,
    cx = c * cw -> cy = r * ch ->
    0 <= c <= k -> (j < n)%nat ->
    spec_grid side cw ch cx cy n !! j =
    Some (((r * k + c + Z.of_nat j) mod k) * cw,
          ((r * k + c + Z.of_nat j) / k) * ch).
Proof.
  intros Hcw k.
  assert (Hk : 1 <= k) by (apply Z.div_le_lower_bound; lia).
  assert (Hkc : k * cw <= side < (k + 1) * cw).
  { unfold k. pose proof (Z.div_mod side cw ltac:(lia)).
    pose proof (Z.mod_pos_bound side cw ltac:(lia)). nia. }
  induction n as [|n IH]; intros cx cy c r j -> -> Hc Hj; [lia|].
  cbn [spec_grid].
  destruct (Z.eq_dec c k) as [->|Hne].
  - (* the row is full: wrap *)
    assert (Hw : (k * cw + cw >? side) = true) by (apply Z.gtb_lt; lia).
    rewrite Hw. cbn [fst snd].
    destruct j as [|j].
    + change ((?a :: ?l) !! 0%nat) with (Some a). change (Z.of_nat 0) with 0.
      f_equal. replace (r * k + k + 0) with ((r + 1) * k + 0) by lia.
      destruct (div_mod_index k (r + 1) 0 ltac:(lia) ltac:(lia)) as [-> ->].
      f_equal; lia.
    + change ((?a :: ?l) !! S j) with (l !! j).
      rewrite (IH _ _ 1 (r + 1) j) by lia.
      replace ((r + 1) * k + 1 + Z.of_nat j) with (r * k + k + Z.of_nat (S j))
        by lia.
      reflexivity.
  - assert (Hw : (c * cw + cw >? side) = false).
    { rewrite Z.gtb_ltb. apply Z.ltb_ge. nia. }
    rewrite Hw. cbn [fst snd].
    destruct j as [|j].
    + change ((?a :: ?l) !! 0%nat) with (Some a). change (Z.of_nat 0) with 0.
      f_equal. replace (r * k + c + 0) with (r * k + c) by lia.
      destruct (div_mod_index k r c ltac:(lia) ltac:(lia)) as [-> ->].
      reflexivity.
    + change ((?a :: ?l) !! S j) with (l !! j).
      rewrite (IH _ _ (c + 1) r j) by lia.
      replace (r * k + (c + 1) + Z.of_nat j) with (r * k + c + Z.of_nat (S j))
        by lia.
      reflexivity.
Qed.

Lemma spec_grid_closed_form side cw ch n i :
  0 < cw <= side -> (i < n)%nat ->
  spec_grid side cw ch 0 0 n !! i =
  Some ((Z.of_nat i mod (side / cw)) * cw, (Z.of_nat i / (side / cw)) * ch).
Proof.
  intros Hcw Hi.
  assert (1 <= side / cw) by (apply Z.div_le_lower_bound; lia).
  rewrite (spec_grid_from side cw ch Hcw n 0 0 0 0 i) by lia.
  reflexivity.
Qed.

(** A cell wider than the atlas: every placement wraps first. *)
Lemma spec_grid_too_wide side cw ch :
  0 <= side < cw ->
  forall n cx cy j,
    0 <= cx -> (j < n)%nat ->
    spec_grid side cw ch cx cy n !! j =
    Some (0, cy + (Z.of_nat j + 1) * ch).
Proof.
  intros Hcw. induction n as [|n IH]; intros cx cy j Hcx Hj; [lia|].
  cbn [spec_grid].
  assert (Hw : (cx + cw >? side) = true) by (apply Z.gtb_lt; lia).
  rewrite Hw. cbn [fst snd].
  destruct j as [|j].
  - change ((?a :: ?l) !! 0%nat) with (Some a). change (Z.of_nat 0) with 0.
    do 2 f_equal. lia.
  - change ((?a :: ?l) !! S j) with (l !! j).
    rewrite IH by lia.
    replace (cy + ch + (Z.of_nat j + 1) * ch)
      with (cy + (Z.of_nat (S j) + 1) * ch) by lia.
    reflexivity.
Qed.

(** Every position is a whole number of cells away from the origin. *)
Lemma spec_grid_multiples side cw ch :
  forall n cx cy a b,
    cx = a * cw -> cy = b * ch ->
    Forall (fun p => exists a' b', p = (a' * cw, b' * ch))
      (spec_grid side cw ch cx cy n).
Proof.
  induction n as [|n IH]; intros cx cy a b -> ->; cbn [spec_grid];
    [constructor|].
  destruct (a * cw + cw >? side); cbn [fst snd]; constructor.
  - exists 0, (b + 1). f_equal; lia.
  - apply (IH _ _ 1 (b + 1)); lia.
  - exists a, b. reflexivity.
  - apply (IH _ _ (a + 1) b); lia.
Qed.

(** Two different places of the grid are at least one cell apart,
    sideways or downwards. *)
Lemma spec_grid_cells_apart side cw ch n :
  0 <= side -> 0 < cw -> 0 < ch ->
  forall i j p q,
    spec_grid side cw ch 0 0 n !! i = Some p ->
    spec_grid side cw ch 0 0 n !! j = Some q ->
    i <> j ->
    fst p + cw <= fst q \/ fst q + cw <= fst p \/
    snd p + ch <= snd q \/ snd q + ch <= snd p.
Proof.
  intros Hside Hcw Hch i j p q Hp Hq Hij.
  assert (Hi : (i < n)%nat).
  { apply lookup_lt_Some in Hp. rewrite spec_grid_length in Hp. exact Hp. }
  assert (Hj : (j < n)%nat).
  { apply lookup_lt_Some in Hq. rewrite spec_grid_length in Hq. exact Hq. }
  destruct (Z.leb_spec cw side) as [Hle|Hgt].
  - rewrite (spec_grid_closed_form side cw ch n i ltac:(lia) Hi) in Hp.
    rewrite (spec_grid_closed_form side cw ch n j ltac:(lia) Hj) in Hq.
    injection Hp as <-. injection Hq as <-. cbn [fst snd].
    set (k := side / cw) in *.
    assert (Hk : 1 <= k) by (apply Z.div_le_lower_bound; lia).
    pose proof (Z.div_mod (Z.of_nat i) k ltac:(lia)) as Hdi.
    pose proof (Z.div_mod (Z.of_nat j) k ltac:(lia)) as Hdj.
    pose proof (Z.mod_pos_bound (Z.of_nat i) k ltac:(lia)) as Hbi.
    pose proof (Z.mod_pos_bound (Z.of_nat j) k ltac:(lia)) as Hbj.
    set (qi := Z.of_nat i / k) in *. set (ri := Z.of_nat i mod k) in *.
    set (qj := Z.of_nat j / k) in *. set (rj := Z.of_nat j mod k) in *.
    destruct (Z.lt_trichotomy qi qj) as [Hlt|[Heq|Hlt]].
    + right; right; left.
      assert ((qi + 1) * ch <= qj * ch)
        by (apply Z.mul_le_mono_nonneg_r; lia). lia.
    + destruct (Z.lt_trichotomy ri rj) as [Hr|[Hr|Hr]].
      * left. assert ((ri + 1) * cw <= rj * cw)
          by (apply Z.mul_le_mono_nonneg_r; lia). lia.
      * exfalso. apply Hij. apply Nat2Z.inj. nia.
      * right; left. assert ((rj + 1) * cw <= ri * cw)
          by (apply Z.mul_le_mono_nonneg_r; lia). lia.
    + right; right; right.
      assert ((qj + 1) * ch <= qi * ch)
        by (apply Z.mul_le_mono_nonneg_r; lia). lia.
  - rewrite (spec_grid_too_wide side cw ch ltac:(lia) n 0 0 i ltac:(lia) Hi)
      in Hp.
    rewrite (spec_grid_too_wide side cw ch ltac:(lia) n 0 0 j ltac:(lia) Hj)
      in Hq.
    injection Hp as <-. injection Hq as <-. cbn [fst snd].
    right; right.
    destruct (Nat.lt_trichotomy i j) as [Hlt|[Heq|Hlt]]; [left|lia|right].
    + assert ((Z.of_nat i + 2) * ch <= (Z.of_nat j + 1) * ch)
        by (apply Z.mul_le_mono_nonneg_r; lia). lia.
    + assert ((Z.of_nat j + 2) * ch <= (Z.of_nat i + 1) * ch)
        by (apply Z.mul_le_mono_nonneg_r; lia). lia.
Qed.

(** ** Where the repacker puts the cells *)

Lemma zip_with_spec_record_lookup cw ch (sl : list Sprite.t) grid i s :
  zip_with (spec_record cw ch) sl grid !! i = Some s ->
  exists sprite p,
    sl !! i = Some sprite /\ grid !! i = Some p /\
    s = spec_record cw ch sprite p.
Proof.
  rewrite lookup_zip_with. intros H.
  destruct (sl !! i) as [sprite|]; [|discriminate].
  destruct (grid !! i) as [p|]; [|discriminate].
  injection H as <-. eauto.
Qed.

Lemma new_dimensions_positive sl cw ch side :
  new_dimensions sl cw ch = Ok side -> 1 <= side.
Proof.
  unfold new_dimensions. intros H. bind_ok H. injection H as <-.
  unfold next_power_of_two. destruct (v0 =? 0); [lia|].
  assert (0 <= bit_length (v0 - 1)) by (destruct (v0 - 1); cbn; lia).
  pose proof (Z.pow_pos_nonneg 2 (bit_length (v0 - 1))). lia.
Qed.

Lemma repacked_lookup sl cw ch src im nl i s :
  create_new_spritesheet sl cw ch src = Ok (im, nl) ->
  nl !! i = Some s ->
  exists side sprite p,
    new_dimensions sl cw ch = Ok side /\ 1 <= side /\
    (i < length sl)%nat /\
    sl !! i = Some sprite /\
    spec_grid side cw ch 0 0 (length sl) !! i = Some p /\
    s = spec_record cw ch sprite p.
Proof.
  intros Hc Hs.
  destruct (create_new_spritesheet_inv _ _ _ _ _ _ Hc) as (side & Hside & _ & ->).
  destruct (zip_with_spec_record_lookup _ _ _ _ _ _ Hs)
    as (sprite & p & Hsp & Hp & ->).
  exists side, sprite, p. split; [exact Hside|].
  split; [apply (new_dimensions_positive _ _ _ _ Hside)|].
  split; [eapply lookup_lt_Some; exact Hsp|]. repeat split; assumption.
Qed.

Lemma repacked_position sl cw ch src im nl i s :
  create_new_spritesheet sl cw ch src = Ok (im, nl) ->
  nl !! i = Some s ->
  exists side,
    new_dimensions sl cw ch = Ok side /\ 1 <= side /\
    Sprite.width s = cw /\ Sprite.height s = ch /\
    (0 < cw <= side ->
     Sprite.x s = (Z.of_nat i mod (side / cw)) * cw /\
     Sprite.y s = (Z.of_nat i / (side / cw)) * ch) /\
    (side < cw ->
     Sprite.x s = 0 /\ Sprite.y s = (Z.of_nat i + 1) * ch).
Proof.
  intros Hc Hs.
  destruct (repacked_lookup _ _ _ _ _ _ _ _ Hc Hs)
    as (side & sprite & p & Hside & Hpos & Hi & _ & Hp & ->).
  exists side. split; [exact Hside|]. split; [exact Hpos|].
  split; [reflexivity|]. split; [reflexivity|]. split.
  - intros Hcw. rewrite (spec_grid_closed_form _ _ _ _ _ Hcw Hi) in Hp.
    injection Hp as <-. split; reflexivity.
  - intros Hcw.
    rewrite (spec_grid_too_wide side cw ch ltac:(lia) _ 0 0 i
               ltac:(lia) Hi) in Hp.
    injection Hp as <-. split; reflexivity.
Qed.


(** X8. When the cell is at most as wide as the atlas, the atlas holds
    side / cell_w cells per row and the i-th repacked record (counting from
    0) sits at column i mod that number and row i div that number; its cell
    lies between the left and the right edge of the atlas. *)
Theorem repacked_positions_closed_form (sprite_list : list Sprite.t)
    (cell_w cell_h : Z) (src : Image.t) (side : Z) (im : Image.t)
    (new_sprite_list : list Sprite.t) (i : nat) (s : Sprite.t) :
  new_dimensions sprite_list cell_w cell_h = Ok side ->
  create_new_spritesheet sprite_list cell_w cell_h src =
    Ok (im, new_sprite_list) ->
  0 < cell_w <= side ->
  new_sprite_list !! i = Some s ->
  Sprite.x s = (Z.of_nat i mod (side / cell_w)) * cell_w /\
  Sprite.y s = (Z.of_nat i / (side / cell_w)) * cell_h /\
  0 <= Sprite.x s /\ Sprite.x s + cell_w <= side.
Proof.
  intros Hside Hc Hcw Hs.
  destruct (repacked_position _ _ _ _ _ _ _ _ Hc Hs)
    as (side' & Hside' & _ & _ & _ & Hform & _).
  rewrite Hside in Hside'. injection Hside' as <-.
  destruct (Hform Hcw) as [Hx Hy].
  split; [exact Hx|]. split; [exact Hy|]. rewrite Hx.
  set (k := side / cell_w).
  assert (Hk : 1 <= k) by (apply Z.div_le_lower_bound; lia).
  pose proof (Z.mod_pos_bound (Z.of_nat i) k ltac:(lia)) as Hb.
  assert (Hkc : k * cell_w <= side).
  { unfold k. pose proof (Z.div_mod side cell_w ltac:(lia)).
    pose proof (Z.mod_pos_bound side cell_w ltac:(lia)). nia. }
  split; [nia|].
  assert ((Z.of_nat i mod k + 1) * cell_w <= k * cell_w)
    by (apply Z.mul_le_mono_nonneg_r; lia).
  lia.
Qed.

Lemma repacked_positions_closed_form_witness :
  0 = (Z.of_nat 2 mod (32 / 16)) * 16 /\
  20 = (Z.of_nat 2 / (32 / 16)) * 20 /\
  0 <= 0 /\ 0 + 16 <= 32.
Proof.
  apply (repacked_positions_closed_form demo_catalog 16 20 demo_image 32
           demo_new_image demo_new_sprite_list 2
           (Sprite.Build (Some "c"%string) 0 20 16 20 0 0 false));
    try (vm_compute; reflexivity).
  lia.
Defined.

(** X9. When the cell is wider than the atlas, the cursor wraps before
    every placement, the first one included: the i-th repacked record sits
    at x = 0 and y = (i + 1) * cell_h, so the row at y = 0 stays empty. *)
Theorem repacked_positions_too_wide (sprite_list : list Sprite.t)
    (cell_w cell_h : Z) (src : Image.t) (side : Z) (im : Image.t)
    (new_sprite_list : list Sprite.t) (i : nat) (s : Sprite.t) :
  new_dimensions sprite_list cell_w cell_h = Ok side ->
  create_new_spritesheet sprite_list cell_w cell_h src =
    Ok (im, new_sprite_list) ->
  side < cell_w ->
  new_sprite_list !! i = Some s ->
  Sprite.x s = 0 /\ Sprite.y s = (Z.of_nat i + 1) * cell_h.
Proof.
  intros Hside Hc Hcw Hs.
  destruct (repacked_position _ _ _ _ _ _ _ _ Hc Hs)
    as (side' & Hside' & _ & _ & _ & _ & Hform).
  rewrite Hside in Hside'. injection Hside' as <-.
  exact (Hform Hcw).
Qed.

Lemma repacked_positions_too_wide_witness :
  parse_sprites wide_root = Ok (wide_catalog, 16, 4) /\
  (0 = 0 /\ 4 = (Z.of_nat 0 + 1) * 4).
Proof.
  split; [vm_compute; reflexivity|].
  apply (repacked_positions_too_wide wide_catalog 16 4 demo_image 8
           (paste_all (Image.new "RGBA" (8, 8))
              [(Image.crop demo_image (0, 0, 16, 4), (0, 4))])
           wide_new_sprite_list 0
           (Sprite.Build (Some "bar"%string) 0 4 16 4 0 0 false));
    vm_compute; reflexivity.
Defined.

(** X10. With a cell of positive width and height, the cells of two
    different repacked records never overlap: one lies at least a cell
    width to the side of the other, or at least a cell height above it. *)
Theorem repacked_cells_disjoint (sprite_list : list Sprite.t)
    (cell_w cell_h : Z) (src : Image.t) (im : Image.t)
    (new_sprite_list : list Sprite.t) (i j : nat) (a b : Sprite.t) :
  create_new_spritesheet sprite_list cell_w cell_h src =
    Ok (im, new_sprite_list) ->
  0 < cell_w -> 0 < cell_h ->
  new_sprite_list !! i = Some a -> new_sprite_list !! j = Some b ->
  i <> j ->
  Sprite.x a + cell_w <= Sprite.x b \/ Sprite.x b + cell_w <= Sprite.x a \/
  Sprite.y a + cell_h <= Sprite.y b \/ Sprite.y b + cell_h <= Sprite.y a.
Proof.
  intros Hc Hcw Hch Ha Hb Hij.
  destruct (repacked_lookup _ _ _ _ _ _ _ _ Hc Ha)
    as (side & sa & p & Hside & Hpos & _ & _ & Hp & ->).
  destruct (repacked_lookup _ _ _ _ _ _ _ _ Hc Hb)
    as (side' & sb & q & Hside' & _ & _ & _ & Hq & ->).
  rewrite Hside in Hside'. injection Hside' as <-.
  exact (spec_grid_cells_apart side cell_w cell_h _ ltac:(lia) Hcw Hch
           i j p q Hp Hq Hij).
Qed.

Lemma repacked_cells_disjoint_witness :
  0 + 16 <= 16 \/ 16 + 16 <= 0 \/ 0 + 20 <= 0 \/ 0 + 20 <= 0.
Proof.
  apply (repacked_cells_disjoint demo_catalog 16 20 demo_image
           demo_new_image demo_new_sprite_list 0 1
           (Sprite.Build (Some "a"%string) 0 0 16 20 0 0 false)
           (Sprite.Build (Some "b"%string) 16 0 16 20 0 0 false));
    try (vm_compute; reflexivity); lia.
Defined.

(** Positions are whole numbers of cells. *)
Lemma repacked_position_multiple sl cw ch src im nl i s :
  create_new_spritesheet sl cw ch src = Ok (im, nl) ->
  nl !! i = Some s ->
  exists a b, Sprite.x s = a * cw /\ Sprite.y s = b * ch.
Proof.
  intros Hc Hs.
  destruct (repacked_lookup _ _ _ _ _ _ _ _ Hc Hs)
    as (side & sprite & p & _ & _ & _ & _ & Hp & ->).
  pose proof (spec_grid_multiples side cw ch (length sl) 0 0 0 0
                ltac:(lia) ltac:(lia)) as Hall.
  rewrite Forall_forall in Hall.
  destruct (Hall p) as (a & b & ->).
  { apply list_elem_of_lookup. eauto. }
  exists a, b. split; reflexivity.
Qed.

(** X11. After parsing and repacking, the x, y, width and height of
    every repacked record are multiples of SPRITE_SIZE_MULTIPLE, as the
    comment on that constant promises. *)
Theorem repacked_multiples_of_four (xml_root : list Element)
    (catalog : list Sprite.t) (max_width max_height : Z) (src : Image.t)
    (im : Image.t) (new_sprite_list : list Sprite.t) :
  parse_sprites xml_root = Ok (catalog, max_width, max_height) ->
  create_new_spritesheet catalog max_width max_height src =
    Ok (im, new_sprite_list) ->
  Forall (fun s =>
            Sprite.x s mod SPRITE_SIZE_MULTIPLE = 0 /\
            Sprite.y s mod SPRITE_SIZE_MULTIPLE = 0 /\
            Sprite.width s mod SPRITE_SIZE_MULTIPLE = 0 /\
            Sprite.height s mod SPRITE_SIZE_MULTIPLE = 0) new_sprite_list.
Proof.
  intros Hp Hc.
  destruct (parse_sprites_nonneg _ _ _ _ Hp) as (_ & _ & Hw4 & Hh4).
  assert (Hmul : forall a c, c mod 4 = 0 -> (a * c) mod 4 = 0).
  { intros a c Hc4. pose proof (Z.div_mod c 4 ltac:(lia)) as Hd.
    rewrite Hc4 in Hd. replace (a * c) with ((a * (c / 4)) * 4) by lia.
    apply Z.mod_mul. lia. }
  apply Forall_forall. intros s Hin.
  apply list_elem_of_lookup in Hin as [i Hi].
  destruct (repacked_position_multiple _ _ _ _ _ _ _ _ Hc Hi)
    as (a & b & Hx & Hy).
  destruct (repacked_position _ _ _ _ _ _ _ _ Hc Hi)
    as (_ & _ & _ & Hw & Hh & _).
  unfold SPRITE_SIZE_MULTIPLE. rewrite Hx, Hy, Hw, Hh.
  repeat split; auto.
Qed.

Lemma repacked_multiples_of_four_witness :
  Forall (fun s =>
            Sprite.x s mod SPRITE_SIZE_MULTIPLE = 0 /\
            Sprite.y s mod SPRITE_SIZE_MULTIPLE = 0 /\
            Sprite.width s mod SPRITE_SIZE_MULTIPLE = 0 /\
            Sprite.height s mod SPRITE_SIZE_MULTIPLE = 0)
    demo_new_sprite_list.
Proof.
  apply (repacked_multiples_of_four demo_root demo_catalog 16 20 demo_image
           demo_new_image demo_new_sprite_list);
    vm_compute; reflexivity.
Defined.

Lemma sprite_image_size src s :
  0 <= Sprite.width s -> 0 <= Sprite.height s ->
  Image.size (sprite_image src s) = (Sprite.width s, Sprite.height s).
Proof.
  intros _ _. unfold sprite_image.
  destruct (Sprite.rotated s); cbn [Image.size fst snd]; f_equal; lia.
Qed.

(** X12. After parsing and repacking, the piece pasted for a catalog
    entry is as large as the entry's width and height (when these are not
    negative) and ends inside the entry's cell: its right edge is not past
    the cell's right edge and its lower edge not past the cell's lower edge.
    When pos_x (pos_y) is not positive it also starts inside the cell. *)
Theorem pastes_within_cells (xml_root : list Element)
    (catalog : list Sprite.t) (max_width max_height : Z) (src : Image.t)
    (im : Image.t) (new_sprite_list : list Sprite.t) (i : nat)
    (sprite cell : Sprite.t) :
  parse_sprites xml_root = Ok (catalog, max_width, max_height) ->
  create_new_spritesheet catalog max_width max_height src =
    Ok (im, new_sprite_list) ->
  catalog !! i = Some sprite -> new_sprite_list !! i = Some cell ->
  exists left top,
    Image.pastes im !! i = Some (sprite_image src sprite, (left, top)) /\
    left + Sprite.width sprite <= Sprite.x cell + max_width /\
    top + Sprite.height sprite <= Sprite.y cell + max_height /\
    (Sprite.pos_x sprite <= 0 -> Sprite.x cell <= left) /\
    (Sprite.pos_y sprite <= 0 -> Sprite.y cell <= top) /\
    (0 <= Sprite.width sprite -> 0 <= Sprite.height sprite ->
     Image.size (sprite_image src sprite) =
     (Sprite.width sprite, Sprite.height sprite)).
Proof.
  intros Hp Hc Hsp Hcell.
  destruct (parse_sprites_fit _ _ _ _ Hp) as (Hfit & _).
  destruct (Hfit sprite) as [Hw Hh].
  { apply list_elem_of_In, list_elem_of_lookup. eauto. }
  unfold trim_width in Hw. unfold trim_height in Hh.
  destruct (create_new_spritesheet_inv _ _ _ _ _ _ Hc)
    as (side & Hside & -> & ->).
  destruct (zip_with_spec_record_lookup _ _ _ _ _ _ Hcell)
    as (sprite' & p & Hsp' & Hgp & ->).
  rewrite Hsp in Hsp'. injection Hsp' as <-.
  exists (fst p - Sprite.pos_x sprite), (snd p - Sprite.pos_y sprite).
  split.
  - rewrite paste_all_pastes. cbn [Image.pastes app].
    rewrite lookup_zip_with, Hsp. cbn. rewrite Hgp. reflexivity.
  - cbn [spec_record Sprite.x Sprite.y].
    split; [lia|]. split; [lia|]. split; [lia|]. split; [lia|].
    apply sprite_image_size.
Qed.

Lemma pastes_within_cells_witness :
  exists left top,
    Image.pastes demo_new_image !! 1%nat =
      Some (sprite_image demo_image
              (Sprite.Build (Some "b"%string) 10 0 4 4 0 0 true),
            (left, top)) /\
    left + 4 <= 16 + 16 /\ top + 4 <= 0 + 20 /\
    (0 <= 0 -> 16 <= left) /\ (0 <= 0 -> 0 <= top) /\
    (0 <= 4 -> 0 <= 4 ->
     Image.size (sprite_image demo_image
                   (Sprite.Build (Some "b"%string) 10 0 4 4 0 0 true)) =
     (4, 4)).
Proof.
  apply (pastes_within_cells demo_root demo_catalog 16 20 demo_image
           demo_new_image demo_new_sprite_list 1
           (Sprite.Build (Some "b"%string) 10 0 4 4 0 0 true)
           (Sprite.Build (Some "b"%string) 16 0 16 20 0 0 false));
    vm_compute; reflexivity.
Defined.

(** ** The size of the atlas *)

Lemma next_power_of_two_lt_double n : 1 <= n -> next_power_of_two n < 2 * n.
Proof.
  intros Hn. unfold next_power_of_two.
  destruct (Z.eqb_spec n 0); [lia|].
  destruct (n - 1) as [|p|p] eqn:Hp; try lia; cbn [bit_length].
  - simpl. lia.
  - pose proof (size_bounds p) as [Hlo _].
    replace (Zpos (Pos.size p)) with ((Zpos (Pos.size p) - 1) + 1) by lia.
    rewrite Z.pow_add_r by lia. lia.
Qed.

(** X13. When the total cell area is between 0 and 2^52, the atlas is at
    least as large as the total cell area, and for a positive area its side
    is less than twice the ceiling of the area's square root, so the atlas
    is less than four times the total cell area. *)
Theorem atlas_area_sufficient (sprite_list : list Sprite.t)
    (cell_w cell_h side : Z) :
  let area := Z.of_nat (length sprite_list) * cell_w * cell_h in
  0 <= area <= 2 ^ 52 ->
  new_dimensions sprite_list cell_w cell_h = Ok side ->
  area <= side * side /\
  (1 <= area -> side < 2 * ceil_sqrt area /\ side * side < 4 * area).
Proof.
  intros area Harea Hside.
  rewrite (new_dimensions_exact _ _ _ Harea) in Hside.
  injection Hside as <-. unfold spec_side. fold area.
  destruct (ceil_sqrt_spec area ltac:(lia)) as (Hc0 & Hcsq & Hcmin).
  set (c := ceil_sqrt area) in *.
  destruct (Z.eq_dec c 0) as [Hz|Hnz].
  - rewrite Hz in *. cbn. split; [lia|]. intros. lia.
  - destruct (next_power_of_two_spec c ltac:(lia)) as (k & Hk0' & Hk & Hle & _).
    pose proof (next_power_of_two_lt_double c ltac:(lia)) as Hlt.
    set (s := next_power_of_two c) in *.
    assert (c * c <= s * s) by (apply Z.mul_le_mono_nonneg; lia).
    split; [lia|]. intros H1. split; [exact Hlt|].
    assert (Hc1 : (c - 1) * (c - 1) < area).
    { destruct (Z.ltb_spec ((c - 1) * (c - 1)) area); [assumption|].
      specialize (Hcmin (c - 1) ltac:(lia) ltac:(lia)). lia. }
    destruct (Z.eq_dec k 0) as [->|Hk0]; [change (2 ^ 0) with 1 in Hk; lia|].
    assert (Hhalf : s = 2 * 2 ^ (k - 1)).
    { rewrite Hk. replace k with ((k - 1) + 1) at 1 by lia.
      rewrite Z.pow_add_r by lia. simpl. lia. }
    assert (0 < 2 ^ (k - 1)) by (apply Z.pow_pos_nonneg; lia).
    assert (2 ^ (k - 1) * 2 ^ (k - 1) <= (c - 1) * (c - 1))
      by (apply Z.mul_le_mono_nonneg; lia).
    nia.
Qed.

Lemma atlas_area_sufficient_witness :
  960 <= 32 * 32 /\
  (1 <= 960 -> 32 < 2 * ceil_sqrt 960 /\ 32 * 32 < 4 * 960).
Proof.
  apply (atlas_area_sufficient demo_catalog 16 20 32).
  - vm_compute. split; discriminate.
  - vm_compute. reflexivity.
Defined.

Lemma float_of_int_negative p :
  Zpos p < 2 ^ 53 ->
  exists m e, float_of_int (Zneg p) = Ok (S754_finite true m e).
Proof.
  intros Hp. set (d := Zpos (Pos.size p)).
  pose proof (size_bounds p) as [Hlo Hhi]. fold d in Hlo, Hhi.
  assert (Hd : 1 <= d <= 53).
  { split; [unfold d; lia|].
    destruct (Z.leb_spec d 53); [assumption|].
    assert (2 ^ 53 <= 2 ^ (d - 1)) by (apply Z.pow_le_mono_r; lia). lia. }
  unfold float_of_int, binary_normalize, binary_round.
  rewrite digits2_pos_size. fold d.
  unfold shl_align, fexp, emin, prec, emax.
  replace (Z.max (d + 0 - 53) (3 - 1024 - 53) - 0) with (d - 53) by lia.
  replace (Z.max (d + 0 - 53) (3 - 1024 - 53)) with (d - 53) by lia.
  assert (Hpow : 2 ^ 53 = 2 ^ (d - 1) * 2 ^ (53 - d) * 2).
  { replace 53 with ((d - 1) + (53 - d) + 1) at 1 by lia.
    rewrite !Z.pow_add_r by lia. reflexivity. }
  assert (Hpow' : 2 ^ d = 2 ^ (d - 1) * 2).
  { replace d with ((d - 1) + 1) at 1 by lia.
    rewrite Z.pow_add_r by lia. reflexivity. }
  assert (0 < 2 ^ (53 - d)) by (apply Z.pow_pos_nonneg; lia).
  assert (0 < 2 ^ (d - 1)) by (apply Z.pow_pos_nonneg; lia).
  destruct (d - 53) as [|k|k] eqn:Hk.
  - assert (d = 53) by lia.
    change (binary_round_aux 53 1024) with (binary_round_aux prec emax).
    rewrite binary_round_aux_53; simpl round_nearest_even; try lia.
    + eexists _, _. reflexivity.
    + subst d. rewrite H1 in Hlo. simpl in Hlo. simpl. lia.
  - lia.
  - change (binary_round_aux 53 1024) with (binary_round_aux prec emax).
    rewrite binary_round_aux_53; simpl round_nearest_even; rewrite ?iter_xO;
      try lia.
    + eexists _, _. reflexivity.
    + replace (Zpos k) with (53 - d) by lia. nia.
    + replace (Zpos k) with (53 - d) by lia. nia.
Qed.

(** X14. For an empty catalog the side of the atlas is 1 whatever the
    cell size.  For a negative total cell area (above -2^53) the square root
    raises ValueError, and so does the repacker. *)
Theorem new_dimensions_edge_cases :
  (forall cell_w cell_h, new_dimensions [] cell_w cell_h = Ok 1) /\
  (forall sprite_list cell_w cell_h,
      - 2 ^ 53 < Z.of_nat (length sprite_list) * cell_w * cell_h < 0 ->
      new_dimensions sprite_list cell_w cell_h = Raise ValueError) /\
  (forall sprite_list cell_w cell_h src,
      - 2 ^ 53 < Z.of_nat (length sprite_list) * cell_w * cell_h < 0 ->
      create_new_spritesheet sprite_list cell_w cell_h src =
      Raise ValueError).
Proof.
  assert (Hneg : forall sprite_list cell_w cell_h,
      - 2 ^ 53 < Z.of_nat (length sprite_list) * cell_w * cell_h < 0 ->
      new_dimensions sprite_list cell_w cell_h = Raise ValueError).
  { intros sl cw ch Harea. unfold new_dimensions. rewrite total_area_eq.
    destruct (Z.of_nat (length sl) * cw * ch) as [|p|p]; try lia.
    unfold math_sqrt.
    destruct (float_of_int_negative p ltac:(lia)) as (m & e & ->).
    reflexivity. }
  split; [reflexivity|]. split; [exact Hneg|].
  intros sl cw ch src Harea. unfold create_new_spritesheet.
  rewrite (Hneg _ _ _ Harea). reflexivity.
Qed.

(** ** The rewriter on one element *)

Lemma Sprite_eq_compat e s1 s2 :
  Sprite.eq s1 s2 = true -> Sprite.eq e s1 = Sprite.eq e s2.
Proof.
  intros H12.
  destruct (Sprite.eq e s1) eqn:H1, (Sprite.eq e s2) eqn:H2; try reflexivity.
  - rewrite (Sprite_eq_trans _ _ _ H1 H12) in H2. discriminate.
  - rewrite Sprite_eq_sym in H12.
    rewrite (Sprite_eq_trans _ _ _ H2 H12) in H1. discriminate.
Qed.

Lemma index_eq_compat l s1 s2 :
  Sprite.eq s1 s2 = true -> index l s1 = index l s2.
Proof.
  intros H12. induction l as [|e r IH]; cbn [index]; [reflexivity|].
  rewrite (Sprite_eq_compat e _ _ H12), IH. reflexivity.
Qed.

Lemma update_sub_texture_eq e original new_sprite_list s i ns :
  sprite_of_sub_texture e = Ok s -> index original s = Ok i ->
  new_sprite_list !! i = Some ns ->
  update_sub_texture e original new_sprite_list =
  Ok {| tag := tag e; attrib := rewritten_attrib (attrib e) ns |}.
Proof.
  intros Hs Hi Hns. unfold update_sub_texture, getitem.
  rewrite Hs. cbn [Py.bind]. rewrite Hi. cbn [Py.bind]. rewrite Hns.
  reflexivity.
Qed.

(** X15. Two SubTexture elements whose records are equal are rewritten
    alike: when the rewrite of the first succeeds, so does that of the
    second, and both get the same x, y, width and height. *)
Theorem equal_sprites_rewritten_alike (e1 e2 : Element) (s1 s2 : Sprite.t)
    (original new_sprite_list : list Sprite.t) (e1' : Element) :
  sprite_of_sub_texture e1 = Ok s1 ->
  sprite_of_sub_texture e2 = Ok s2 ->
  Sprite.eq s1 s2 = true ->
  update_sub_texture e1 original new_sprite_list = Ok e1' ->
  exists e2',
    update_sub_texture e2 original new_sprite_list = Ok e2' /\
    attrib e2' !! "x"%string = attrib e1' !! "x"%string /\
    attrib e2' !! "y"%string = attrib e1' !! "y"%string /\
    attrib e2' !! "width"%string = attrib e1' !! "width"%string /\
    attrib e2' !! "height"%string = attrib e1' !! "height"%string.
Proof.
  intros Hs1 Hs2 Heq Hu.
  destruct (update_sub_texture_inv _ _ _ _ Hu)
    as (s & i & ns & Hs & Hi & Hns & ->).
  rewrite Hs1 in Hs. injection Hs as <-.
  rewrite (index_eq_compat _ _ _ Heq) in Hi.
  eexists. split; [apply (update_sub_texture_eq _ _ _ _ _ _ Hs2 Hi Hns)|].
  cbn [attrib].
  pose proof (rewritten_attrib_lookup (attrib e1) ns) as (X1 & Y1 & W1 & H1 & _).
  pose proof (rewritten_attrib_lookup (attrib e2) ns) as (X2 & Y2 & W2 & H2 & _).
  cbv zeta in *. rewrite X1, Y1, W1, H1, X2, Y2, W2, H2. repeat split.
Qed.

Lemma equal_sprites_rewritten_alike_witness :
  exists e2',
    update_sub_texture pair_second pair_catalog pair_new_sprite_list =
      Ok e2' /\
    attrib e2' !! "x"%string = Some "0"%string /\
    attrib e2' !! "y"%string = Some "0"%string /\
    attrib e2' !! "width"%string = Some "12"%string /\
    attrib e2' !! "height"%string = Some "20"%string.
Proof.
  apply (equal_sprites_rewritten_alike pair_first pair_second
           (Sprite.Build (Some "idle0"%string) 0 0 10 20 1 2 false)
           (Sprite.Build (Some "idle1"%string) 0 0 10 20 1 2 false)
           pair_catalog pair_new_sprite_list
           (sub_texture [("name", "idle0"); ("x", "0"); ("y", "0");
                         ("width", "12"); ("height", "20")]%string));
    vm_compute; reflexivity.
Defined.

Lemma index_not_contained l v :
  contains l v = false -> index l v = Raise ValueError.
Proof.
  induction l as [|e r IH]; cbn [contains existsb index]; [reflexivity|].
  rewrite (Sprite_eq_sym v e). destruct (Sprite.eq e v); [discriminate|].
  cbn [orb]. intros H. rewrite (IH H). reflexivity.
Qed.

(** X16. The rewrite of one element has four outcomes.  If the element's
    record cannot be built, the error of building it is raised.  If no entry
    of the catalog equals the record, ValueError is raised.  Otherwise the
    record is found at an index below the catalog's length; if the repacked
    list is too short for that index, IndexError is raised, and else the
    element is rewritten with the repacked record at that index. *)
Theorem update_sub_texture_outcomes (e : Element)
    (original new_sprite_list : list Sprite.t) :
  match sprite_of_sub_texture e with
  | Raise err =>
      update_sub_texture e original new_sprite_list = Raise err
  | Ok s =>
      if contains original s then
        exists i,
          index original s = Ok i /\ (i < length original)%nat /\
          match new_sprite_list !! i with
          | Some ns =>
              update_sub_texture e original new_sprite_list =
              Ok {| tag := tag e;
                    attrib := rewritten_attrib (attrib e) ns |}
          | None =>
              (length new_sprite_list <= i)%nat /\
              update_sub_texture e original new_sprite_list =
              Raise IndexError
          end
      else
        update_sub_texture e original new_sprite_list = Raise ValueError
  end.
Proof.
  destruct (sprite_of_sub_texture e) as [s|err] eqn:Hs.
  - destruct (contains original s) eqn:Hc.
    + destruct (index_of_contains _ _ Hc) as (i & Hi & Hlt).
      exists i. split; [exact Hi|]. split; [exact Hlt|].
      destruct (new_sprite_list !! i) as [ns|] eqn:Hns.
      * apply (update_sub_texture_eq _ _ _ _ _ _ Hs Hi Hns).
      * split; [apply lookup_ge_None, Hns|].
        unfold update_sub_texture, getitem. rewrite Hs. cbn [Py.bind].
        rewrite Hi. cbn [Py.bind]. rewrite Hns. reflexivity.
    + unfold update_sub_texture. rewrite Hs. cbn [Py.bind].
      rewrite (index_not_contained _ _ Hc). reflexivity.
  - unfold update_sub_texture. rewrite Hs. reflexivity.
Qed.

(** ** The run *)

(** X17. When the parser accepts the index and the repacker returns, the
    rewriter cannot fail: the run returns the repacker's image together with
    the index rewritten from the repacker's records, the image carries one
    paste per catalog entry, the rewritten index has as many elements as the
    input, and when the total cell area is at most 2^52 the image is a
    square buffer of the side next_power_of_two(ceil(sqrt(area))). *)
Theorem run_returns_repacked (src im : Image.t) (xml_root : list Element)
    (catalog new_sprite_list : list Sprite.t) (max_width max_height : Z) :
  parse_sprites xml_root = Ok (catalog, max_width, max_height) ->
  create_new_spritesheet catalog max_width max_height src =
    Ok (im, new_sprite_list) ->
  exists xml_root',
    update_xml_with_new_sprites xml_root catalog new_sprite_list =
      Ok xml_root' /\
    generate_new_spritesheet src xml_root = Ok (im, xml_root') /\
    length (Image.pastes im) = length catalog /\
    length xml_root' = length xml_root /\
    (Z.of_nat (length catalog) * max_width * max_height <= 2 ^ 52 ->
     Image.canvas im =
       Image.new "RGBA"
         (spec_side (length catalog) max_width max_height,
          spec_side (length catalog) max_width max_height)).
Proof.
  intros Hp Hc.
  destruct (generate_new_spritesheet_ok src _ _ _ _ _ _ Hp Hc)
    as (root' & Hu & Hg & Hlen).
  exists root'. split; [exact Hu|]. split; [exact Hg|].
  destruct (create_new_spritesheet_inv _ _ _ _ _ _ Hc)
    as (side & Hside & -> & _).
  split; [|split; [exact Hlen|]].
  - rewrite paste_all_pastes. cbn [Image.pastes app].
    rewrite length_zip_with, spec_grid_length. lia.
  - intros Harea.
    destruct (parse_sprites_nonneg _ _ _ _ Hp) as (Hw & Hh & _).
    rewrite new_dimensions_exact in Hside.
    + injection Hside as <-. apply paste_all_canvas.
    + split; [|exact Harea].
      apply Z.mul_nonneg_nonneg; [apply Z.mul_nonneg_nonneg|]; lia.
Qed.

Lemma run_returns_repacked_witness :
  exists xml_root',
    update_xml_with_new_sprites demo_root demo_catalog demo_new_sprite_list =
      Ok xml_root' /\
    generate_new_spritesheet demo_image demo_root =
      Ok (demo_new_image, xml_root') /\
    length (Image.pastes demo_new_image) = length demo_catalog /\
    length xml_root' = length demo_root /\
    (Z.of_nat (length demo_catalog) * 16 * 20 <= 2 ^ 52 ->
     Image.canvas demo_new_image =
       Image.new "RGBA"
         (spec_side (length demo_catalog) 16 20,
          spec_side (length demo_catalog) 16 20)).
Proof.
  apply (run_returns_repacked demo_image demo_new_image demo_root demo_catalog
           demo_new_sprite_list 16 20).
  - vm_compute. reflexivity.
  - vm_compute. reflexivity.
Defined.

(** ** Edge cases of the parser *)

Lemma findall_idempotent xml_root t :
  findall (findall xml_root t) t = findall xml_root t.
Proof.
  unfold findall. induction xml_root as [|e r IH]; cbn [List.filter];
    [reflexivity|].
  destruct (String.eqb (tag e) t) eqn:Ht; [|exact IH].
  cbn [List.filter]. rewrite Ht, IH. reflexivity.
Qed.

Lemma sprites_of_first_error good bad rest l err :
  sprites_of good = Ok l -> sprite_of_sub_texture bad = Raise err ->
  sprites_of (good ++ bad :: rest) = Raise err.
Proof.
  revert l. induction good as [|e r IH]; intros l Hg Hb; cbn [app sprites_of].
  - rewrite Hb. reflexivity.
  - cbn [sprites_of] in Hg. bind_ok Hg. cbn [Py.bind].
    rewrite (IH _ eq_refl Hb). reflexivity.
Qed.

(** X18. The parser looks at the SubTexture children only; without any it
    returns the empty catalog and the cell size 0 x 0; and when the records
    of the first descriptors can be built and the next one cannot, it raises
    the error of that descriptor. *)
Theorem parse_sprites_edge_cases :
  (forall xml_root,
      parse_sprites (findall xml_root "SubTexture") = parse_sprites xml_root) /\
  (forall xml_root,
      findall xml_root "SubTexture" = [] ->
      parse_sprites xml_root = Ok ([], 0, 0)) /\
  (forall xml_root good bad rest sprites err,
      findall xml_root "SubTexture" = good ++ bad :: rest ->
      sprites_of good = Ok sprites ->
      sprite_of_sub_texture bad = Raise err ->
      parse_sprites xml_root = Raise err).
Proof.
  split; [|split].
  - intros root. unfold parse_sprites. rewrite findall_idempotent.
    reflexivity.
  - intros root Hnil. unfold parse_sprites. rewrite Hnil. reflexivity.
  - intros root good bad rest sprites err Hf Hg Hb.
    unfold parse_sprites.
    rewrite (parse_loop_raise _ err); [reflexivity|].
    rewrite Hf. apply (sprites_of_first_error _ _ _ _ _ Hg Hb).
Qed.

(** X19. Building a record from a SubTexture reads the eight attributes
    name, x, y, width, height, frameX, frameY and rotated and nothing else.
    Without x it raises TypeError; when it succeeds, x, y, width and height
    are present and the record's name is the name attribute (none when it
    is missing); without frameX and frameY both offsets are 0. *)
Theorem sprite_of_sub_texture_reading :
  (forall e1 e2,
      (forall k, In k descriptor_keys -> attrib e1 !! k = attrib e2 !! k) ->
      sprite_of_sub_texture e1 = sprite_of_sub_texture e2) /\
  (forall e,
      attrib e !! "x"%string = None ->
      sprite_of_sub_texture e = Raise TypeError) /\
  (forall e s,
      sprite_of_sub_texture e = Ok s ->
      is_Some (attrib e !! "x"%string) /\ is_Some (attrib e !! "y"%string) /\
      is_Some (attrib e !! "width"%string) /\
      is_Some (attrib e !! "height"%string) /\
      Sprite.name s = attrib e !! "name"%string) /\
  (forall e s,
      sprite_of_sub_texture e = Ok s ->
      attrib e !! "frameX"%string = None ->
      attrib e !! "frameY"%string = None ->
      Sprite.pos_x s = 0 /\ Sprite.pos_y s = 0).
Proof.
  split; [|split; [|split]].
  - intros e1 e2 H. unfold sprite_of_sub_texture, descriptor_keys in *.
    rewrite !(H _) by (cbn; tauto). reflexivity.
  - intros e Hx. unfold sprite_of_sub_texture. rewrite Hx. reflexivity.
  - intros e s Hs. apply sprite_of_sub_texture_inv in Hs.
    destruct Hs as (x & y & w & h & px & py & Hx & Hy & Hw & Hh & _ & _ & ->).
    assert (Hsome : forall v z, int_of_get v = Ok z -> is_Some v)
      by (intros [v|] z Hv; [eexists; reflexivity|discriminate]).
    repeat split; eauto.
    destruct (bool_of_get_defaultFalse _); reflexivity.
  - intros e s Hs HfX HfY. apply sprite_of_sub_texture_inv in Hs.
    destruct Hs as (x & y & w & h & px & py & _ & _ & _ & _ & Hpx & Hpy & ->).
    rewrite HfX in Hpx. rewrite HfY in Hpy.
    injection Hpx as <-. injection Hpy as <-.
    destruct (bool_of_get_defaultFalse _); split; reflexivity.
Qed.

Lemma update_xml_no_sub_texture xml_root original new_sprite_list :
  findall xml_root "SubTexture" = [] ->
  update_xml_with_new_sprites xml_root original new_sprite_list = Ok xml_root.
Proof.
  unfold findall. induction xml_root as [|e r IH];
    cbn [List.filter update_xml_with_new_sprites]; [reflexivity|].
  destruct (String.eqb (tag e) "SubTexture"); [discriminate|].
  intros H. rewrite (IH H). reflexivity.
Qed.

(** X20. On an index without SubTexture children the run returns an empty
    1 x 1 atlas and the index unchanged. *)
Theorem run_without_sub_textures (src : Image.t) (xml_root : list Element) :
  findall xml_root "SubTexture" = [] ->
  generate_new_spritesheet src xml_root =
  Ok (Image.new "RGBA" (1, 1), xml_root).
Proof.
  intros Hnil. unfold generate_new_spritesheet, parse_sprites.
  rewrite Hnil. cbn [parse_loop Py.bind]. rewrite !next_multiple_4.
  cbn [Py.bind]. change (create_new_spritesheet [] (round4 0) (round4 0) src)
    with (Ok (Image.new "RGBA" (1, 1), @nil Sprite.t)).
  cbn [Py.bind]. rewrite (update_xml_no_sub_texture _ _ _ Hnil). reflexivity.
Qed.

Lemma run_without_sub_textures_witness :
  generate_new_spritesheet demo_image other_root =
  Ok (Image.new "RGBA" (1, 1), other_root).
Proof. apply (run_without_sub_textures demo_image other_root). reflexivity. Defined.

(** ** Running the tool on its own output *)







Section Relocation.

Variables (cw ch : Z) (g : list (Z * Z)) (cat : list Sprite.t).
Let nl := zip_with (spec_record cw ch) cat g.
Hypothesis Hlen : length g = length cat.
Hypothesis Hdistinct : pairwise_distinct nl.




End Relocation.










(** ** The lower edge of the atlas *)

(** X22. The repacker never checks the lower edge.  With a cell at most
    as wide as the atlas and a non-empty catalog, all cells end inside the
    atlas exactly when the number of rows needed, ceil(n / (side / cell_w)),
    times the cell height is at most the side. *)
Theorem cells_fit_vertically_iff (sprite_list : list Sprite.t)
    (cell_w cell_h : Z) (src : Image.t) (side : Z) (im : Image.t)
    (new_sprite_list : list Sprite.t) :
  new_dimensions sprite_list cell_w cell_h = Ok side ->
  create_new_spritesheet sprite_list cell_w cell_h src =
    Ok (im, new_sprite_list) ->
  0 < cell_w <= side -> 0 <= cell_h -> sprite_list <> [] ->
  let rows := (Z.of_nat (length sprite_list) - 1) / (side / cell_w) + 1 in
  Forall (fun s => Sprite.y s + cell_h <= side) new_sprite_list <->
  rows * cell_h <= side.
Proof.
  intros Hside Hc Hcw Hch Hne rows.
  set (k := side / cell_w) in *.
  assert (Hk : 1 <= k) by (apply Z.div_le_lower_bound; lia).
  assert (Hn : (0 < length sprite_list)%nat)
    by (destruct sprite_list; [contradiction|cbn; lia]).
  destruct (create_new_spritesheet_inv _ _ _ _ _ _ Hc)
    as (side' & Hside' & _ & Hnl).
  rewrite Hside in Hside'. injection Hside' as <-.
  assert (Hlen : length new_sprite_list = length sprite_list).
  { rewrite Hnl, length_zip_with, spec_grid_length. lia. }
  assert (Hy : forall i s, new_sprite_list !! i = Some s ->
                Sprite.y s = (Z.of_nat i / k) * cell_h).
  { intros i s Hs.
    destruct (repacked_position _ _ _ _ _ _ _ _ Hc Hs)
      as (side' & Hside' & _ & _ & _ & Hform & _).
    rewrite Hside in Hside'. injection Hside' as <-.
    apply (Hform Hcw). }
  rewrite Forall_forall. split.
  - intros Hall.
    destruct (lookup_lt_is_Some_2 new_sprite_list (length sprite_list - 1))
      as [s Hs]; [lia|].
    specialize (Hall s ltac:(apply list_elem_of_lookup; eauto)).
    rewrite (Hy _ _ Hs) in Hall. unfold rows.
    replace (Z.of_nat (length sprite_list - 1))
      with (Z.of_nat (length sprite_list) - 1) in Hall by lia.
    lia.
  - intros Hrows s Hin. apply list_elem_of_lookup in Hin as [i Hi].
    rewrite (Hy _ _ Hi).
    assert (Hilt : (i < length sprite_list)%nat)
      by (rewrite <- Hlen; eapply lookup_lt_Some; exact Hi).
    assert (Hq : Z.of_nat i / k <= (Z.of_nat (length sprite_list) - 1) / k)
      by (apply Z.div_le_mono; lia).
    assert ((Z.of_nat i / k + 1) * cell_h <= rows * cell_h)
      by (apply Z.mul_le_mono_nonneg_r; unfold rows; lia).
    lia.
Qed.

Lemma cells_fit_vertically_iff_witness :
  Forall (fun s => Sprite.y s + 20 <= 32) demo_new_sprite_list <->
  ((Z.of_nat 3 - 1) / (32 / 16) + 1) * 20 <= 32.
Proof.
  apply (cells_fit_vertically_iff demo_catalog 16 20 demo_image 32
           demo_new_image demo_new_sprite_list);
    try (vm_compute; reflexivity); try lia; discriminate.
Defined.
